(** * Sarracen: SPH interpolation of particle data onto a pixel grid or a line

    A shallow embedding of [sarracen/interpolate.py]: the two entry points
    [interpolate2D] and [interpolate2DCross], the IEEE binary64 arithmetic
    they run on, the Python and NumPy error behaviour of the conversions and
    array accesses they perform, and the label-indexed pandas [Series] that
    the cross-section routine filters and indexes. *)

From stdpp Require Import base list strings.
From Stdlib Require Import ZArith Lia.
From Corelib Require Import SpecFloat PrimFloat FloatOps.

Set Warnings "-inexact-float".
Open Scope Z_scope.

(** ** IEEE 754 binary64

    Python's [float] and NumPy's [float64] are IEEE binary64 numbers.  They
    are modelled by the executable specification [spec_float] of the
    standard library at precision 53 and maximal exponent 1024, which rounds
    every operation to nearest, ties to even. *)
Module Float64.

Definition float : Type := spec_float.

Definition prec : Z := 53.
Definition emax : Z := 1024.

Definition fadd : float -> float -> float := SFadd prec emax.
Definition fsub : float -> float -> float := SFsub prec emax.
Definition fmul : float -> float -> float := SFmul prec emax.
Definition fdiv : float -> float -> float := SFdiv prec emax.
Definition fsqrt : float -> float := SFsqrt prec emax.
Definition fopp : float -> float := SFopp.
Definition fabs : float -> float := SFabs.

(** Comparisons: every comparison with a NaN is false. *)
Definition feqb : float -> float -> bool := SFeqb.
Definition fltb : float -> float -> bool := SFltb.
Definition fleb : float -> float -> bool := SFleb.
Definition fgtb (x y : float) : bool := SFltb y x.
Definition fgeb (x y : float) : bool := SFleb y x.

(** Conversion of an integer, rounded to nearest. *)
Definition of_Z (z : Z) : float := binary_normalize prec emax z 0 false.

Definition zero : float := S754_zero false.
Definition one : float := Eval vm_compute in of_Z 1.
Definition two : float := Eval vm_compute in of_Z 2.
Definition four : float := Eval vm_compute in of_Z 4.
Definition half : float := Eval vm_compute in Prim2SF 0.5%float.

Definition is_nan (x : float) : bool :=
  match x with S754_nan => true | _ => false end.

Definition is_finite (x : float) : bool :=
  match x with S754_zero _ | S754_finite _ _ _ => true | _ => false end.

Definition is_zero (x : float) : bool :=
  match x with S754_zero _ => true | _ => false end.

(** The square [x ** 2] of a NumPy value: NumPy computes it as [x * x]. *)
Definition fsquare (x : float) : float := fmul x x.

End Float64.
Export Float64.

(** ** Python values, errors and arrays *)

(** The exceptions the two routines can raise.  The validation errors of the
    source are all [ValueError]s, told apart by their message. *)
Inductive PyError : Type :=
  | ValueError (msg : string)
  | OverflowError (msg : string)
  | ZeroDivisionError (msg : string)
  | IndexError (msg : string)
  | KeyError (label : Z).

(** A computation that returns a value or raises. *)
Definition Exc (A : Type) : Type := PyError + A.

Definition raise {A : Type} (e : PyError) : Exc A := inl e.
Definition ret {A : Type} (a : A) : Exc A := inr a.

Definition bind {A B : Type} (m : Exc A) (k : A -> Exc B) : Exc B :=
  match m with
  | inl e => inl e
  | inr a => k a
  end.

Declare Scope exc_scope.
Delimit Scope exc_scope with exc.
Notation "'letM' x := m 'in' k" := (bind m (fun x => k))
  (at level 10, x name, m at level 100, k at level 200) : exc_scope.
Open Scope exc_scope.

(** A [for] loop whose body updates a state and may raise. *)
Fixpoint foldM {A S : Type} (f : S -> A -> Exc S) (l : list A) (s : S) : Exc S :=
  match l with
  | [] => ret s
  | a :: l' => letM s' := f s a in foldM f l' s'
  end.

(** [range(a, b)]: the integers from [a] up to but excluding [b]. *)
Definition py_range (a b : Z) : list Z := seqZ a (b - a).

(** [np.rint]: round to the nearest integer, ties to even, as a float.
    Infinities, NaN and signed zeros are returned unchanged. *)
Definition rint_magnitude (m : positive) (e : Z) : Z :=
  if 0 <=? e then Z.pos m * 2 ^ e
  else
    let d := 2 ^ (- e) in
    let q := Z.pos m / d in
    let r := Z.pos m mod d in
    match 2 * r ?= d with
    | Lt => q
    | Gt => q + 1
    | Eq => if Z.even q then q else q + 1
    end.

Definition np_rint (x : float) : float :=
  match x with
  | S754_finite s m e =>
      if 0 <=? e then x
      else binary_normalize prec emax (cond_Zopp s (rint_magnitude m e)) 0 s
  | _ => x
  end.

(** [int(x)] of a float: truncation toward zero; NaN and the infinities
    raise. *)
Definition py_int (x : float) : Exc Z :=
  match x with
  | S754_nan => raise (ValueError "cannot convert float NaN to integer")
  | S754_infinity _ =>
      raise (OverflowError "cannot convert float infinity to integer")
  | S754_zero _ => ret 0
  | S754_finite s m e =>
      ret (cond_Zopp s (if 0 <=? e then Z.pos m * 2 ^ e
                        else Z.pos m / 2 ^ (- e)))
  end.

(** [x ** 2] of a Python [float]: an overflow of a finite operand raises. *)
Definition py_pow2 (x : float) : Exc float :=
  let r := fmul x x in
  match x, r with
  | S754_finite _ _ _, S754_infinity _ =>
      raise (OverflowError "(34, 'Numerical result out of range')")
  | _, _ => ret r
  end.

(** [x / y] of Python numbers: a zero divisor raises. *)
Definition py_div (x y : float) : Exc float :=
  if is_zero y then raise (ZeroDivisionError "float division by zero")
  else ret (fdiv x y).

(** [np.isclose(a, b)] with the default tolerances [rtol = 1e-05] and
    [atol = 1e-08]. *)
Definition rtol : float := Eval vm_compute in Prim2SF 1e-5%float.
Definition atol : float := Eval vm_compute in Prim2SF 1e-8%float.

Definition np_isclose (a b : float) : bool :=
  (fleb (fabs (fsub a b)) (fadd atol (fmul rtol (fabs b))) && is_finite b)
  || feqb a b.

(** One-dimensional NumPy arrays are lists; an index may be negative (it then
    counts from the end) and raises [IndexError] out of range. *)
Definition norm_index (len : nat) (i : Z) : Exc nat :=
  let n := Z.of_nat len in
  if (0 <=? i) && (i <? n) then ret (Z.to_nat i)
  else if (- n <=? i) && (i <? 0) then ret (Z.to_nat (n + i))
  else raise (IndexError "index out of bounds").

Definition getitem {A : Type} (a : list A) (i : Z) : Exc A :=
  letM k := norm_index (length a) i in
  match a !! k with
  | Some v => ret v
  | None => raise (IndexError "index out of bounds")
  end.

Definition setitem {A : Type} (a : list A) (i : Z) (v : A) : Exc (list A) :=
  letM k := norm_index (length a) i in
  ret (<[k := v]> a).

(** [np.zeros(n)] and [np.zeros((rows, cols))]. *)
Definition np_zeros (n : Z) : Exc (list float) :=
  if n <? 0 then raise (ValueError "negative dimensions are not allowed")
  else ret (replicate (Z.to_nat n) zero).

Definition np_zeros2 (rows cols : Z) : Exc (list (list float)) :=
  if (rows <? 0) || (cols <? 0)
  then raise (ValueError "negative dimensions are not allowed")
  else ret (replicate (Z.to_nat rows) (replicate (Z.to_nat cols) zero)).

(** [image[j][i] += v] *)
Definition iadd2 (image : list (list float)) (j i : Z) (v : float)
  : Exc (list (list float)) :=
  letM row := getitem image j in
  letM old := getitem row i in
  letM row' := setitem row i (fadd old v) in
  setitem image j row'.

(** ** Particles and kernels *)

(** One row of the particle table, with the three caller-selected columns
    [x], [y] and [target] already resolved. *)
Record Particle : Type := mkParticle {
  p_x : float;
  p_y : float;
  p_target : float;
  p_m : float;
  p_rho : float;
  p_h : float
}.

(** The kernel interface the routines consume ([sarracen.kernels.BaseKernel]):
    the weight function, its support radius and its dimensionality. *)
Record BaseKernel : Type := mkKernel {
  radkernel : float;
  ndims : Z;
  w : float -> float
}.

(** ** interpolate2D *)

Section Interpolate2D.

Variable kernel : BaseKernel.
Variables pixwidthx pixwidthy xmin ymin : float.
Variables pixcountx pixcounty : Z.

(** Lines 56-66: the per-particle scalars. *)
Definition weight_of (particle : Particle) : float :=
  fdiv (p_m particle) (fmul (p_rho particle) (fsquare (p_h particle))).

Definition radkern_of (particle : Particle) : float :=
  fmul (radkernel kernel) (p_h particle).

Definition term_of (particle : Particle) : float :=
  fmul (weight_of particle) (p_target particle).

Definition hi1_of (particle : Particle) : float := fdiv one (p_h particle).

Definition hi21_of (particle : Particle) : float :=
  fsquare (hi1_of particle).

(** Lines 72-75: the unclamped pixel indices, in the order the source
    evaluates them. *)
Definition raw_bounds (particle : Particle) : Exc (Z * Z * Z * Z) :=
  let radkern := radkern_of particle in
  let part_x := p_x particle in
  let part_y := p_y particle in
  letM ipixmin := py_int (np_rint (fdiv (fsub (fsub part_x radkern) xmin) pixwidthx)) in
  letM jpixmin := py_int (np_rint (fdiv (fsub (fsub part_y radkern) ymin) pixwidthy)) in
  letM ipixmax := py_int (np_rint (fdiv (fsub (fadd part_x radkern) xmin) pixwidthx)) in
  letM jpixmax := py_int (np_rint (fdiv (fsub (fadd part_y radkern) ymin) pixwidthy)) in
  ret (ipixmin, jpixmin, ipixmax, jpixmax).

(** Lines 78-85: clamping to the image. *)
Definition clamp_bounds (b : Z * Z * Z * Z) : Z * Z * Z * Z :=
  let '(ipixmin, jpixmin, ipixmax, jpixmax) := b in
  let ipixmin := if ipixmin <? 0 then 0 else ipixmin in
  let ipixmax := if ipixmax >? pixcountx then pixcountx else ipixmax in
  let jpixmin := if jpixmin <? 0 then 0 else jpixmin in
  let jpixmax := if jpixmax >? pixcounty then pixcounty else jpixmax in
  (ipixmin, jpixmin, ipixmax, jpixmax).

(** Line 90: the scaled squared x-distance of column [ipix]. *)
Definition dx2_of (particle : Particle) (ipix : Z) : float :=
  fmul
    (fsquare (fsub (fadd xmin (fmul (fadd (of_Z ipix) half) pixwidthx))
                   (p_x particle)))
    (hi21_of particle).

(** Lines 95-97: the scaled squared y-distance of row [jpix]. *)
Definition dy2_of (particle : Particle) (jpix : Z) : float :=
  let ypix := fadd ymin (fmul (fadd (of_Z jpix) half) pixwidthy) in
  let dy := fsub ypix (p_y particle) in
  fmul (fmul dy dy) (hi21_of particle).

(** Lines 88-90: the buffer of x-differences. *)
Definition fill_dx2i (particle : Particle) (ipixmin ipixmax : Z)
  : Exc (list float) :=
  letM dx2i := np_zeros pixcountx in
  foldM (fun dx2i ipix => setitem dx2i ipix (dx2_of particle ipix))
        (py_range ipixmin ipixmax) dx2i.

(** Lines 99-105: one row of the accumulation. *)
Definition accumulate_row (particle : Particle) (dx2i : list float)
    (ipixmin ipixmax : Z) (image : list (list float)) (jpix : Z)
  : Exc (list (list float)) :=
  let dy2 := dy2_of particle jpix in
  foldM (fun image ipix =>
           letM dx2 := getitem dx2i ipix in
           let q2 := fadd dx2 dy2 in
           let wab := w kernel (fsqrt q2) in
           iadd2 image jpix ipix (fmul (term_of particle) wab))
        (py_range ipixmin ipixmax) image.

(** Lines 53-105: the body of the loop over the particles. *)
Definition particle_step (image : list (list float)) (particle : Particle)
  : Exc (list (list float)) :=
  let weight := weight_of particle in
  if fleb weight zero then ret image
  else
    letM b := raw_bounds particle in
    let '(ipixmin, jpixmin, ipixmax, jpixmax) := clamp_bounds b in
    letM dx2i := fill_dx2i particle ipixmin ipixmax in
    foldM (accumulate_row particle dx2i ipixmin ipixmax)
          (py_range jpixmin jpixmax) image.

Definition interpolate2D (data : list Particle) : Exc (list (list float)) :=
  if fleb pixwidthx zero
  then raise (ValueError "pixwidthx must be greater than zero!")
  else if fleb pixwidthy zero
  then raise (ValueError "pixwidthy must be greater than zero!")
  else if pixcountx <=? 0
  then raise (ValueError "pixcountx must be greater than zero!")
  else if pixcounty <=? 0
  then raise (ValueError "pixcounty must be greater than zero!")
  else if negb (ndims kernel =? 2)
  then raise (ValueError "Kernel must be two-dimensional!")
  else
    letM image := np_zeros2 pixcounty pixcountx in
    foldM particle_step data image.

End Interpolate2D.

(** The pixels visited by a loop over rows with an inner loop over columns. *)
Definition grid (rows cols : list Z) : list (Z * Z) :=
  rows ≫= fun j => pair j <$> cols.

(** ** What one particle adds to one pixel *)

Section Contribution.

Variable kernel : BaseKernel.
Variables pixwidthx pixwidthy xmin ymin : float.
Variables pixcountx pixcounty : Z.

(** The pixel [(j, i)] lies in the half-open rectangle
    [jpixmin <= j < jpixmax], [ipixmin <= i < ipixmax]. *)
Definition in_rect (b : Z * Z * Z * Z) (j i : Z) : bool :=
  let '(ipixmin, jpixmin, ipixmax, jpixmax) := b in
  (jpixmin <=? j) && (j <? jpixmax) && (ipixmin <=? i) && (i <? ipixmax).

(** Line 101-105: the value [term * wab] added at row [j], column [i]. *)
Definition cell_value (particle : Particle) (j i : Z) : float :=
  fmul (term_of particle)
       (w kernel
          (fsqrt (fadd (dx2_of pixwidthx xmin particle i)
                       (dy2_of pixwidthy ymin particle j)))).

(** The value, if any, that [particle] adds to the pixel [(j, i)]. *)
Definition contribution (particle : Particle) (j i : Z) : option float :=
  if fleb (weight_of particle) zero then None
  else
    match raw_bounds kernel pixwidthx pixwidthy xmin ymin particle with
    | inl _ => None
    | inr raw =>
        if in_rect (clamp_bounds pixcountx pixcounty raw) j i
        then Some (cell_value particle j i)
        else None
    end.

(** The index conversions of [particle] do not raise, or are not reached
    because the particle is skipped. *)
Definition converts (particle : Particle) : bool :=
  if fleb (weight_of particle) zero then true
  else
    match raw_bounds kernel pixwidthx pixwidthy xmin ymin particle with
    | inl _ => false
    | inr _ => true
    end.

(** The values added to the pixel [(j, i)], in the order of the particles. *)
Definition contributions (data : list Particle) (j i : Z) : list float :=
  omap (fun particle => contribution particle j i) data.

End Contribution.

(** ** pandas Series

    A [Series] is a column of values, each carrying the label of its row.
    The particle table has the default index: row [i] has label [i].
    Selecting with a boolean mask keeps the labels of the selected rows;
    indexing with an integer looks the integer up as a label and raises
    [KeyError] when no row carries it. *)
Definition Series (A : Type) : Type := list (Z * A).

Definition column {A : Type} (f : Particle -> A) (data : list Particle)
  : Series A :=
  imap (fun i particle => (Z.of_nat i, f particle)) data.

(** Element-wise operations.  In every binary operation of the source the
    two operands carry the same index, so label alignment is positional. *)
Definition smap {A B : Type} (f : A -> B) (s : Series A) : Series B :=
  (fun lv : Z * A => (lv.1, f lv.2)) <$> s.

Definition smap2 {A B C : Type} (f : A -> B -> C)
    (s1 : Series A) (s2 : Series B) : Series C :=
  zip_with (fun (lv1 : Z * A) (lv2 : Z * B) => (lv1.1, f lv1.2 lv2.2)) s1 s2.

(** [s[mask]] *)
Definition smask {A : Type} (s : Series A) (mask : Series bool) : Series A :=
  omap (fun sm : (Z * A) * (Z * bool) => if sm.2.2 then Some sm.1 else None)
       (zip s mask).

(** [s[i]] for an integer [i]: a lookup by label. *)
Fixpoint sloc {A : Type} (s : Series A) (i : Z) : Exc A :=
  match s with
  | [] => raise (KeyError i)
  | (l, v) :: s' => if l =? i then ret v else sloc s' i
  end.

(** [mask.to_numpy().nonzero()[0]]: the positions of the true entries. *)
Definition nonzero (mask : Series bool) : list Z :=
  omap (fun kb : nat * (Z * bool) =>
          if kb.2.2 then Some (Z.of_nat kb.1) else None)
       (zip (seq 0 (length mask)) mask).

(** [Series.clip(lower, upper)] with scalar bounds: a NaN bound is ignored,
    reversed bounds are swapped, and NaN entries are kept. *)
Definition pd_clip (lower upper : float) (v : float) : float :=
  let lo := if is_nan lower then None else Some lower in
  let hi := if is_nan upper then None else Some upper in
  let '(lo, hi) :=
    match lo, hi with
    | Some l, Some u =>
        (Some (if fltb u l then u else l), Some (if fgtb u l then u else l))
    | _, _ => (lo, hi)
    end in
  let v :=
    match lo with
    | Some l => if is_nan v || fgeb v l then v else l
    | None => v
    end in
  match hi with
  | Some u => if is_nan v || fleb v u then v else u
  | None => v
  end.

(** [output[a:b] += vals]: the slice bounds are clamped to the array, and
    [vals] must have the length of the slice (or length one). *)
Definition norm_slice (n a : Z) : Z :=
  if a <? 0 then Z.max 0 (a + n) else Z.min a n.

Definition slice_iadd (output : list float) (a b : Z) (vals : list float)
  : Exc (list float) :=
  let n := Z.of_nat (length output) in
  let start := Z.to_nat (norm_slice n a) in
  let len := Z.to_nat (norm_slice n b - norm_slice n a) in
  let vals' :=
    match vals with
    | [v] => Some (replicate len v)
    | _ => if decide (length vals = len) then Some vals else None
    end in
  match vals' with
  | Some vs =>
      ret (take start output
           ++ zip_with fadd (take len (drop start output)) vs
           ++ drop (start + len) output)
  | None => raise (ValueError "operands could not be broadcast together")
  end.

(** ** interpolate2DCross *)

Section Interpolate2DCross.

Variable kernel : BaseKernel.
Variables x1 y1 x2 y2 : float.
Variable pixcount : Z.

(** Lines 159-160: the weighted target of every row, and the filter on the
    sign of the weight recovered from it. *)
Definition cross_term (data : list Particle) : Series float :=
  column (fun particle =>
            fdiv (fmul (p_target particle) (p_m particle))
                 (fmul (p_rho particle) (fsquare (p_h particle)))) data.

Definition filter_weight (data : list Particle) : Series bool :=
  smap2 (fun t v => fgtb (fdiv t v) zero)
        (cross_term data) (column p_target data).

(** Lines 194-205: the contribution of the row found at index [i]. *)
Definition cross_step (data : list Particle) (gradient yint xpixwidth : float)
    (term ipixmin ipixmax : Series float) (output : list float) (i : Z)
  : Exc (list float) :=
  letM lo := sloc ipixmin i in
  letM lo := py_int lo in
  letM hi := sloc ipixmax i in
  letM hi := py_int hi in
  let xpix :=
    (fun k => fadd x1 (fmul (fadd (of_Z k) half) xpixwidth))
      <$> py_range lo hi in
  let ypix := (fun xp => fadd (fmul gradient xp) yint) <$> xpix in
  letM yi := sloc (column p_y data) i in
  let dy := (fun yp => fsub yp yi) <$> ypix in
  letM xi := sloc (column p_x data) i in
  let dx := (fun xp => fsub xp xi) <$> xpix in
  letM hi1 := sloc (column p_h data) i in
  letM hi2 := sloc (column p_h data) i in
  let q2 :=
    zip_with (fun dx dy =>
                fmul (fadd (fmul dx dx) (fmul dy dy))
                     (fdiv one (fmul hi1 hi2))) dx dy in
  let wab := (fun q => w kernel (fsqrt q)) <$> q2 in
  letM ti := sloc term i in
  slice_iadd output lo hi ((fun wv => fmul wv ti) <$> wab).

Definition interpolate2DCross (data : list Particle) : Exc (list float) :=
  if np_isclose y2 y1 && np_isclose x2 x1
  then raise (ValueError "Zero length cross section!")
  else if pixcount <=? 0
  then raise (ValueError "pixcount must be greater than zero!")
  else if negb (ndims kernel =? 2)
  then raise (ValueError "Kernel must be two-dimensional!")
  else
    letM output := np_zeros pixcount in
    (* the slope of the cross-section line *)
    letM gradient :=
      (if negb (np_isclose x2 x1) then py_div (fsub y2 y1) (fsub x2 x1)
       else ret zero) in
    let yint := fsub y2 (fmul gradient x2) in
    (* the fraction of the line that one pixel represents *)
    letM xx := py_pow2 (fsub x2 x1) in
    letM yy := py_pow2 (fsub y2 y1) in
    let xlength := fsqrt (fadd xx yy) in
    let pixwidth := fdiv xlength (of_Z pixcount) in
    letM xpixwidth := py_div (fsub x2 x1) (of_Z pixcount) in
    (* filter out particles with 0 weight *)
    let term := cross_term data in
    let fw := filter_weight data in
    let xs := smask (column p_x data) fw in
    let ys := smask (column p_y data) fw in
    let hs := smask (column p_h data) fw in
    (* the quadratic of the line and the smoothing circle *)
    letM gg := py_pow2 gradient in
    let aa := fadd one gg in
    let bb :=
      smap2 (fun y x =>
               fsub (fmul (fmul two gradient) (fsub yint y)) (fmul two x))
            ys xs in
    letM yint2 := py_pow2 yint in
    let cc :=
      smap2 (fun (xy : float * float) h =>
               fsub (fadd (fsub (fadd (fsquare xy.1) (fsquare xy.2))
                                (fmul (fmul two yint) xy.2))
                          yint2)
                    (fsquare (fmul (radkernel kernel) h)))
            (smap2 pair xs ys) hs in
    let det :=
      smap2 (fun b c => fsub (fsquare b) (fmul (fmul four aa) c)) bb cc in
    (* the particles that contribute to the cross-section *)
    let filter_det := smap (fun d => fgeb d zero) det in
    let det := smap fsqrt (smask det filter_det) in
    let xstart :=
      smap (pd_clip x1 x2)
           (smap2 (fun b d => fdiv (fsub (fopp b) d) (fmul two aa))
                  (smask bb filter_det) det) in
    let xend :=
      smap (pd_clip x1 x2)
           (smap2 (fun b d => fdiv (fadd (fopp b) d) (fmul two aa))
                  (smask bb filter_det) det) in
    let dist xs :=
      smap (fun xv =>
              fsqrt (fadd (fsquare (fsub xv x1))
                          (fsquare (fsub (fadd (fmul gradient xv) yint) y1))))
           xs in
    let rstart := dist xstart in
    let rend := dist xend in
    let pix rs :=
      smap (fun r => pd_clip zero (of_Z pixcount) (np_rint (fdiv r pixwidth)))
           rs in
    let ipixmin := pix rstart in
    let ipixmax := pix rend in
    foldM (cross_step data gradient yint xpixwidth term ipixmin ipixmax)
          (nonzero filter_det) output.

End Interpolate2DCross.

(** ** The cross-section, row by row

    The specification describes the cross-section one particle at a time:
    keep the particle if its weight is positive and if the line meets its
    support, find its pixel range, and add its values to the pixels of the
    range.  The definitions below follow that description; they are compared
    with [interpolate2DCross] further down. *)

Section CrossRows.

Variable kernel : BaseKernel.
Variables x1 y1 x2 : float.
Variable pixcount : Z.

(** The weight filter: [term / target > 0]. *)
Definition keeps_weight (particle : Particle) : bool :=
  fgtb (fdiv (fdiv (fmul (p_target particle) (p_m particle))
                   (fmul (p_rho particle) (fsquare (p_h particle))))
             (p_target particle))
       zero.

(** The values derived from the line before the rows are read. *)
Variables gradient yint pixwidth xpixwidth aa yint2 : float.

Definition bb_of (particle : Particle) : float :=
  fsub (fmul (fmul two gradient) (fsub yint (p_y particle)))
       (fmul two (p_x particle)).

Definition cc_of (particle : Particle) : float :=
  fsub (fadd (fsub (fadd (fsquare (p_x particle)) (fsquare (p_y particle)))
                   (fmul (fmul two yint) (p_y particle)))
             yint2)
       (fsquare (fmul (radkernel kernel) (p_h particle))).

Definition det_of (particle : Particle) : float :=
  fsub (fsquare (bb_of particle)) (fmul (fmul four aa) (cc_of particle)).

(** The discriminant filter: [det >= 0]. *)
Definition keeps_det (particle : Particle) : bool :=
  fgeb (det_of particle) zero.

Definition xstart_of (particle : Particle) : float :=
  pd_clip x1 x2
    (fdiv (fsub (fopp (bb_of particle)) (fsqrt (det_of particle)))
          (fmul two aa)).

Definition xend_of (particle : Particle) : float :=
  pd_clip x1 x2
    (fdiv (fadd (fopp (bb_of particle)) (fsqrt (det_of particle)))
          (fmul two aa)).

(** The distance along the line of its point of abscissa [xv]. *)
Definition dist_of (xv : float) : float :=
  fsqrt (fadd (fsquare (fsub xv x1))
              (fsquare (fsub (fadd (fmul gradient xv) yint) y1))).

Definition pix_of (r : float) : float :=
  pd_clip zero (of_Z pixcount) (np_rint (fdiv r pixwidth)).

Definition ipixmin_of (particle : Particle) : float :=
  pix_of (dist_of (xstart_of particle)).

Definition ipixmax_of (particle : Particle) : float :=
  pix_of (dist_of (xend_of particle)).

(** The value [term * w(q)] that [particle] adds to the pixel [k]. *)
Definition row_value (particle : Particle) (k : Z) : float :=
  let xpix := fadd x1 (fmul (fadd (of_Z k) half) xpixwidth) in
  let ypix := fadd (fmul gradient xpix) yint in
  let dy := fsub ypix (p_y particle) in
  let dx := fsub xpix (p_x particle) in
  let q2 :=
    fmul (fadd (fmul dx dx) (fmul dy dy))
         (fdiv one (fmul (p_h particle) (p_h particle))) in
  fmul (w kernel (fsqrt q2))
       (fdiv (fmul (p_target particle) (p_m particle))
             (fmul (p_rho particle) (fsquare (p_h particle)))).

(** The accumulation of one surviving particle. *)
Definition row_contrib (output : list float) (particle : Particle)
  : Exc (list float) :=
  letM lo := py_int (ipixmin_of particle) in
  letM hi := py_int (ipixmax_of particle) in
  slice_iadd output lo hi (row_value particle <$> py_range lo hi).

Definition row_step (output : list float) (particle : Particle)
  : Exc (list float) :=
  if keeps_weight particle && keeps_det particle
  then row_contrib output particle
  else ret output.

End CrossRows.

(** The cross-section as the specification describes it: the checks and the
    line parameters of [interpolate2DCross], then one [row_step] per
    particle, in the order of the table. *)
Definition interpolate2DCross_rows (kernel : BaseKernel)
    (x1 y1 x2 y2 : float) (pixcount : Z) (data : list Particle)
  : Exc (list float) :=
  if np_isclose y2 y1 && np_isclose x2 x1
  then raise (ValueError "Zero length cross section!")
  else if pixcount <=? 0
  then raise (ValueError "pixcount must be greater than zero!")
  else if negb (ndims kernel =? 2)
  then raise (ValueError "Kernel must be two-dimensional!")
  else
    letM output := np_zeros pixcount in
    letM gradient :=
      (if negb (np_isclose x2 x1) then py_div (fsub y2 y1) (fsub x2 x1)
       else ret zero) in
    let yint := fsub y2 (fmul gradient x2) in
    letM xx := py_pow2 (fsub x2 x1) in
    letM yy := py_pow2 (fsub y2 y1) in
    let xlength := fsqrt (fadd xx yy) in
    let pixwidth := fdiv xlength (of_Z pixcount) in
    letM xpixwidth := py_div (fsub x2 x1) (of_Z pixcount) in
    letM gg := py_pow2 gradient in
    let aa := fadd one gg in
    letM yint2 := py_pow2 yint in
    foldM (row_step kernel x1 y1 x2 pixcount gradient yint pixwidth
             xpixwidth aa yint2)
          data output.

(** The rows of a table with their labels, from the label [k] on. *)
Fixpoint labelled_from (k : nat) (data : list Particle)
  : list (Z * Particle) :=
  match data with
  | [] => []
  | particle :: data' => (Z.of_nat k, particle) :: labelled_from (S k) data'
  end.

(** Every label exceeds the position of its row, counted from [k]. *)
Fixpoint labels_above (k : nat) (rows : list (Z * Particle)) : Prop :=
  match rows with
  | [] => True
  | lp :: rows' => Z.of_nat k < lp.1 /\ labels_above (S k) rows'
  end.

(** The series of the values of [f] on labelled rows. *)
Definition ser {A : Type} (f : Particle -> A) (rows : list (Z * Particle))
  : Series A :=
  (fun lp : Z * Particle => (lp.1, f lp.2)) <$> rows.

(** The parameters of the cross-section line, computed by both versions
    before the rows are read: the slope, the intercept, the length and the
    x-extent of one pixel, [1 + gradient ** 2] and [yint ** 2]. *)
Record Line : Type := mkLine {
  l_gradient : float;
  l_yint : float;
  l_pixwidth : float;
  l_xpixwidth : float;
  l_aa : float;
  l_yint2 : float
}.

Definition line_of (x1 y1 x2 y2 : float) (pixcount : Z) : Exc Line :=
  letM gradient :=
    (if negb (np_isclose x2 x1) then py_div (fsub y2 y1) (fsub x2 x1)
     else ret zero) in
  let yint := fsub y2 (fmul gradient x2) in
  letM xx := py_pow2 (fsub x2 x1) in
  letM yy := py_pow2 (fsub y2 y1) in
  let xlength := fsqrt (fadd xx yy) in
  let pixwidth := fdiv xlength (of_Z pixcount) in
  letM xpixwidth := py_div (fsub x2 x1) (of_Z pixcount) in
  letM gg := py_pow2 gradient in
  let aa := fadd one gg in
  letM yint2 := py_pow2 yint in
  ret (mkLine gradient yint pixwidth xpixwidth aa yint2).

(** The value stored in the pixel [k] of a profile. *)
Definition cell (output : list float) (k : Z) : float :=
  default zero (output !! Z.to_nat k).

Section CrossContribution.

Variable kernel : BaseKernel.
Variables x1 y1 x2 : float.
Variable pixcount : Z.
Variable line : Line.

(** One step of the row-wise cross-section along [line]. *)
Definition line_step : list float -> Particle -> Exc (list float) :=
  row_step kernel x1 y1 x2 pixcount (l_gradient line) (l_yint line)
    (l_pixwidth line) (l_xpixwidth line) (l_aa line) (l_yint2 line).

(** The value, if any, that [particle] adds to the pixel [k]. *)
Definition cross_contribution (particle : Particle) (k : Z) : option float :=
  if keeps_weight particle
     && keeps_det kernel (l_gradient line) (l_yint line) (l_aa line)
          (l_yint2 line) particle
  then
    match py_int (ipixmin_of kernel x1 y1 x2 pixcount (l_gradient line)
                    (l_yint line) (l_pixwidth line) (l_aa line)
                    (l_yint2 line) particle),
          py_int (ipixmax_of kernel x1 y1 x2 pixcount (l_gradient line)
                    (l_yint line) (l_pixwidth line) (l_aa line)
                    (l_yint2 line) particle) with
    | inr lo, inr hi =>
        if (lo <=? k) && (k <? hi)
        then Some (row_value kernel x1 (l_gradient line) (l_yint line)
                     (l_xpixwidth line) particle k)
        else None
    | _, _ => None
    end
  else None.

(** The values added to the pixel [k], in the order of the particles. *)
Definition cross_contributions (data : list Particle) (k : Z) : list float :=
  omap (fun particle => cross_contribution particle k) data.

End CrossContribution.

(** The labelled rows that pass the discriminant filter. *)
Definition surviving (kernel : BaseKernel) (gradient yint aa yint2 : float)
    (rows : list (Z * Particle)) : list (Z * Particle) :=
  filter (fun lp : Z * Particle =>
            keeps_det kernel gradient yint aa yint2 lp.2 = true) rows.

(** The labelled rows that pass the weight filter. *)
Definition weight_kept (data : list Particle) : list (Z * Particle) :=
  filter (fun lp : Z * Particle => keeps_weight lp.2 = true)
         (labelled_from 0 data).

(** Neither a negative number nor minus infinity. *)
Definition not_negative (x : float) : bool :=
  match x with
  | S754_finite true _ _ | S754_infinity true => false
  | _ => true
  end.

(** The sign of a float, when it has one. *)
Definition fsign (x : float) : option bool :=
  match x with
  | S754_nan => None
  | S754_zero s | S754_infinity s | S754_finite s _ _ => Some s
  end.

(** ** The error taxonomy of the specification

    The source raises [ValueError] for every precondition it checks; the
    specification files the "Kernel must be two-dimensional!" error under
    DimensionMismatch and the other validation errors under
    InvalidParameter. *)
Definition DimensionMismatch : PyError :=
  ValueError "Kernel must be two-dimensional!".

Definition invalid_parameter_messages : list string :=
  [ "pixwidthx must be greater than zero!";
    "pixwidthy must be greater than zero!";
    "pixcountx must be greater than zero!";
    "pixcounty must be greater than zero!";
    "Zero length cross section!";
    "pixcount must be greater than zero!" ]%string.

Definition InvalidParameter (e : PyError) : Prop :=
  exists msg, e = ValueError msg /\ msg ∈ invalid_parameter_messages.

(** ** Pixels of an image *)

(** An image of [rows] rows of [cols] pixels each. *)
Definition shape (rows cols : Z) (image : list (list float)) : Prop :=
  length image = Z.to_nat rows /\
  Forall (fun row => length row = Z.to_nat cols) image.

(** The value stored at row [j], column [i]. *)
Definition pixel (image : list (list float)) (j i : Z) : float :=
  default zero (image !! Z.to_nat j ≫= fun row => row !! Z.to_nat i).

(** ** Sample kernels and particles *)
Module Samples.

(** A kernel of radius 2 that weighs its whole support by one. *)
Definition tophat : BaseKernel :=
  mkKernel two 2 (fun q => if fleb q two then one else zero).

(** The same weight function declared three-dimensional. *)
Definition tophat3d : BaseKernel :=
  mkKernel two 3 (fun q => if fleb q two then one else zero).

(** A unit-mass, unit-density particle of smoothing length 1/2 at the
    point (2, 2), carrying the target value 1: its weight is 4. *)
Definition centre : Particle :=
  mkParticle two two one one one half.

(** Two particles at the same place: [heavy] adds 2^53 to each pixel it
    covers, [light] adds 1. *)
Definition two53 : float := Eval vm_compute in of_Z (2 ^ 53).

Definition two51 : float := Eval vm_compute in of_Z (2 ^ 51).
Definition quarter : float := Eval vm_compute in Prim2SF 0.25%float.

Definition heavy : Particle := mkParticle two two two51 one one half.

Definition light : Particle := mkParticle two two quarter one one half.

(** [centre] with a zero smoothing length. *)
Definition zero_h : Particle := mkParticle two two one one one zero.

(** [centre] with negative mass and negative density: its weight is 4 too. *)
Definition minus_one : float := Eval vm_compute in of_Z (-1).

Definition negative : Particle :=
  mkParticle two two one minus_one minus_one half.

(** [centre] with negative mass: its weight is -4. *)
Definition negative_mass : Particle :=
  mkParticle two two one minus_one one half.

(** [centre] without mass: its weight is 0 and the weight filter of the
    cross-section drops it. *)
Definition massless : Particle := mkParticle two two one zero one half.

(** A particle at (4, 0), whose support of radius 1 stays clear of the
    diagonal from (0, 0) to (4, 4), and the same particle without mass. *)
Definition far : Particle := mkParticle four zero one one one half.

Definition far_massless : Particle := mkParticle four zero one zero one half.

(** [centre] with zero density: its weight is infinite. *)
Definition zero_rho : Particle := mkParticle two two one one zero half.

End Samples.

(** ** Particles and lengths with exceptional values *)
Module Exceptional.

Definition nan : float := S754_nan.
Definition infinity : float := S754_infinity false.

(** [centre] with a NaN mass: its weight is NaN. *)
Definition nan_mass : Particle :=
  mkParticle two two one nan one half.

(** [centre] with a NaN abscissa. *)
Definition nan_x : Particle :=
  mkParticle nan two one one one half.

(** [centre] with a NaN smoothing length. *)
Definition nan_h : Particle :=
  mkParticle two two one one one nan.

(** [centre] with an infinite smoothing length: its weight is 0. *)
Definition infinite_h : Particle :=
  mkParticle two two one one one infinity.

(** [centre] carrying the target value 0. *)
Definition zero_target : Particle :=
  mkParticle two two zero one one half.

(** A particle at the upper end (2, 4) of the vertical segment from (2, 0)
    to (2, 4). *)
Definition top : Particle := mkParticle two four one one one half.

(** A length whose square exceeds the largest binary64 number. *)
Definition huge : float := Eval vm_compute in of_Z (2 ^ 600).

End Exceptional.

(** The errors that can arise once the arguments have been validated: failed
    conversions and failed array or label accesses. *)
Inductive runtime_error : PyError -> Prop :=
  | re_nan : runtime_error (ValueError "cannot convert float NaN to integer")
  | re_negative :
      runtime_error (ValueError "negative dimensions are not allowed")
  | re_broadcast :
      runtime_error (ValueError "operands could not be broadcast together")
  | re_overflow msg : runtime_error (OverflowError msg)
  | re_zero_division msg : runtime_error (ZeroDivisionError msg)
  | re_index msg : runtime_error (IndexError msg)
  | re_key label : runtime_error (KeyError label).

(** [may_raise P m]: every error that [m] can raise satisfies [P]. *)
Definition may_raise {A : Type} (P : PyError -> Prop) (m : Exc A) : Prop :=
  forall e, m = inl e -> P e.

(** The two errors of [int(x)] on a float that is not a finite number. *)
Definition nan_conversion : PyError :=
  ValueError "cannot convert float NaN to integer".

Definition infinity_conversion : PyError :=
  OverflowError "cannot convert float infinity to integer".

(** The errors [interpolate2DCross] can raise once its arguments have been
    validated: an overflowing square of a Python float, a label that no row
    carries, a failed conversion to an integer and a slice assignment of the
    wrong length. *)
Inductive cross_error : PyError -> Prop :=
  | ce_overflow :
      cross_error (OverflowError "(34, 'Numerical result out of range')")
  | ce_key label : cross_error (KeyError label)
  | ce_nan : cross_error (ValueError "cannot convert float NaN to integer")
  | ce_infinity :
      cross_error (OverflowError "cannot convert float infinity to integer")
  | ce_broadcast :
      cross_error (ValueError "operands could not be broadcast together").

(** * Properties *)

(** ** The error monad and loops *)

Lemma bind_ret {A B : Type} (m : Exc A) (k : A -> Exc B) (b : B) :
  bind m k = ret b <-> exists a, m = ret a /\ k a = ret b.
Proof.
  destruct m as [e|a]; simpl; split.
  - discriminate.
  - intros (a & Ha & _). discriminate.
  - eauto.
  - intros (a' & Ha & Hk). injection Ha as ->. exact Hk.
Qed.

Lemma bind_raise {A B : Type} (m : Exc A) (k : A -> Exc B) (e : PyError) :
  bind m k = inl e <-> m = inl e \/ exists a, m = ret a /\ k a = inl e.
Proof.
  destruct m as [e'|a]; simpl; split.
  - intros [= ->]. by left.
  - intros [[= ->]|(a & Ha & _)]; [done | discriminate].
  - eauto.
  - intros [Ha|(a' & Ha & Hk)]; [discriminate|]. injection Ha as ->. exact Hk.
Qed.

Lemma foldM_app {A S : Type} (f : S -> A -> Exc S) (l1 l2 : list A) (s : S) :
  foldM f (l1 ++ l2) s = bind (foldM f l1 s) (foldM f l2).
Proof.
  revert s. induction l1 as [|a l1 IH]; intros s; simpl; [done|].
  destruct (f s a) as [e|s']; simpl; [done | apply IH].
Qed.

Lemma foldM_ext_in {A S : Type} (f g : S -> A -> Exc S) (l : list A) (s : S) :
  (forall s' a, a ∈ l -> f s' a = g s' a) -> foldM f l s = foldM g l s.
Proof.
  revert s. induction l as [|a l IH]; intros s Hfg; simpl; [done|].
  rewrite (Hfg s a) by left. destruct (g s a) as [e|s']; simpl; [done|].
  apply IH. intros s'' b Hb. apply Hfg. by right.
Qed.

Lemma may_raise_ret {A : Type} (P : PyError -> Prop) (a : A) :
  may_raise P (ret a).
Proof. intros e. discriminate. Qed.

Lemma may_raise_raise {A : Type} (P : PyError -> Prop) (e : PyError) :
  P e -> may_raise P (@raise A e).
Proof. intros He e' [= <-]. exact He. Qed.

Lemma may_raise_bind {A B : Type} (P : PyError -> Prop)
    (m : Exc A) (k : A -> Exc B) :
  may_raise P m -> (forall a, m = ret a -> may_raise P (k a)) ->
  may_raise P (bind m k).
Proof.
  intros Hm Hk e [He|(a & Ha & He)]%bind_raise.
  - by apply Hm.
  - by apply (Hk a).
Qed.

Lemma may_raise_foldM {A S : Type} (P : PyError -> Prop)
    (f : S -> A -> Exc S) (l : list A) (s : S) :
  (forall s' a, a ∈ l -> may_raise P (f s' a)) -> may_raise P (foldM f l s).
Proof.
  revert s. induction l as [|a l IH]; intros s Hf; simpl.
  - apply may_raise_ret.
  - apply may_raise_bind.
    + apply Hf. by left.
    + intros s' _. apply IH. intros s'' b Hb. apply Hf. by right.
Qed.

Lemma may_raise_impl {A : Type} (P Q : PyError -> Prop) (m : Exc A) :
  (forall e, P e -> Q e) -> may_raise P m -> may_raise Q m.
Proof. intros HPQ Hm e He. apply HPQ, Hm, He. Qed.

(** ** The runtime errors of the primitive operations *)

Lemma py_int_runtime (x : float) : may_raise runtime_error (py_int x).
Proof. destruct x; intros err [= <-]; constructor. Qed.

Lemma py_pow2_runtime (x : float) : may_raise runtime_error (py_pow2 x).
Proof.
  unfold py_pow2. intros err.
  destruct x, (fmul _ _); intros [= <-]; constructor.
Qed.

Lemma py_div_runtime (x y : float) : may_raise runtime_error (py_div x y).
Proof.
  unfold py_div. destruct (is_zero y); intros e [= <-]. constructor.
Qed.

Lemma norm_index_runtime (len : nat) (i : Z) :
  may_raise runtime_error (norm_index len i).
Proof.
  unfold norm_index. repeat case_match; intros e [= <-]. constructor.
Qed.

Lemma getitem_runtime {A : Type} (a : list A) (i : Z) :
  may_raise runtime_error (getitem a i).
Proof.
  apply may_raise_bind; [apply norm_index_runtime|]. intros k _.
  destruct (a !! k); intros e [= <-]. constructor.
Qed.

Lemma setitem_runtime {A : Type} (a : list A) (i : Z) (v : A) :
  may_raise runtime_error (setitem a i v).
Proof.
  apply may_raise_bind; [apply norm_index_runtime|]. intros k _.
  apply may_raise_ret.
Qed.

Lemma np_zeros_runtime (n : Z) : may_raise runtime_error (np_zeros n).
Proof. unfold np_zeros. case_match; intros e [= <-]. constructor. Qed.

Lemma np_zeros2_runtime (rows cols : Z) :
  may_raise runtime_error (np_zeros2 rows cols).
Proof. unfold np_zeros2. case_match; intros e [= <-]. constructor. Qed.

Lemma sloc_runtime {A : Type} (s : Series A) (i : Z) :
  may_raise runtime_error (sloc s i).
Proof.
  induction s as [|[l v] s IH]; simpl.
  - intros e [= <-]. constructor.
  - case_match; [apply may_raise_ret | exact IH].
Qed.

Lemma slice_iadd_runtime (output : list float) (a b : Z) (vals : list float) :
  may_raise runtime_error (slice_iadd output a b vals).
Proof.
  unfold slice_iadd. intros e. repeat case_match; intros [= <-]; constructor.
Qed.

Lemma iadd2_runtime (image : list (list float)) (j i : Z) (v : float) :
  may_raise runtime_error (iadd2 image j i v).
Proof.
  unfold iadd2.
  repeat (apply may_raise_bind; [apply getitem_runtime || apply setitem_runtime|];
          intros ? _).
  apply setitem_runtime.
Qed.

Create HintDb runtime.
#[local] Hint Resolve py_int_runtime py_pow2_runtime py_div_runtime
  getitem_runtime setitem_runtime np_zeros_runtime np_zeros2_runtime
  sloc_runtime slice_iadd_runtime iadd2_runtime may_raise_ret : runtime.

Ltac runtime_steps :=
  first
    [ apply may_raise_ret
    | solve [auto with runtime]
    | apply may_raise_foldM; intros ? ? _; runtime_steps
    | apply may_raise_bind; [runtime_steps | intros ? _; runtime_steps]
    | case_match; runtime_steps ].

Lemma raw_bounds_runtime kernel pixwidthx pixwidthy xmin ymin particle :
  may_raise runtime_error
    (raw_bounds kernel pixwidthx pixwidthy xmin ymin particle).
Proof. unfold raw_bounds. runtime_steps. Qed.

Lemma particle_step_runtime kernel pixwidthx pixwidthy xmin ymin
    pixcountx pixcounty image particle :
  may_raise runtime_error
    (particle_step kernel pixwidthx pixwidthy xmin ymin pixcountx pixcounty
       image particle).
Proof.
  unfold particle_step. case_match; [apply may_raise_ret|].
  apply may_raise_bind; [apply raw_bounds_runtime|]. intros [[[a b] c] d] _.
  simpl. unfold fill_dx2i, accumulate_row. runtime_steps.
Qed.

Lemma cross_step_runtime kernel x1 data gradient yint xpixwidth
    term ipixmin ipixmax output i :
  may_raise runtime_error
    (cross_step kernel x1 data gradient yint xpixwidth term ipixmin ipixmax
       output i).
Proof. unfold cross_step. runtime_steps. Qed.

(** ** Validation *)

Ltac in_list :=
  repeat first [apply list_elem_of_here | apply list_elem_of_further].

Lemma runtime_error_not_invalid (e : PyError) :
  runtime_error e -> ~ InvalidParameter e.
Proof.
  intros Hrt (msg & -> & Hin). unfold invalid_parameter_messages in Hin.
  repeat (apply elem_of_cons in Hin as [->|Hin]; [by inversion Hrt|]).
  by apply elem_of_nil in Hin.
Qed.

Lemma runtime_error_not_dimension (e : PyError) :
  runtime_error e -> e <> DimensionMismatch.
Proof. intros Hrt ->. inversion Hrt. Qed.

Lemma dimension_mismatch_not_invalid : ~ InvalidParameter DimensionMismatch.
Proof.
  intros (msg & [= <-] & Hin). unfold invalid_parameter_messages in Hin.
  repeat (apply elem_of_cons in Hin as [Hin|Hin]; [discriminate|]).
  by apply elem_of_nil in Hin.
Qed.

(** What [interpolate2D] computes once its five checks have passed. *)
Lemma interpolate2D_validated kernel pixwidthx pixwidthy xmin ymin
    pixcountx pixcounty data :
  fleb pixwidthx zero = false -> fleb pixwidthy zero = false ->
  0 < pixcountx -> 0 < pixcounty -> ndims kernel = 2 ->
  interpolate2D kernel pixwidthx pixwidthy xmin ymin pixcountx pixcounty data
  = foldM (particle_step kernel pixwidthx pixwidthy xmin ymin
             pixcountx pixcounty)
      data (replicate (Z.to_nat pixcounty)
              (replicate (Z.to_nat pixcountx) zero)).
Proof.
  intros Hx Hy Hcx Hcy Hd. unfold interpolate2D, np_zeros2.
  rewrite Hx, Hy, Hd.
  destruct (Z.leb_spec pixcountx 0); [lia|].
  destruct (Z.leb_spec pixcounty 0); [lia|].
  destruct (Z.ltb_spec pixcounty 0); [lia|].
  destruct (Z.ltb_spec pixcountx 0); [lia|]. done.
Qed.

(** Every error of [interpolate2D], with the check that raised it. *)
Lemma interpolate2D_errors kernel pixwidthx pixwidthy xmin ymin
    pixcountx pixcounty data e :
  interpolate2D kernel pixwidthx pixwidthy xmin ymin pixcountx pixcounty data
  = inl e ->
  (fleb pixwidthx zero = true /\
   e = ValueError "pixwidthx must be greater than zero!") \/
  (fleb pixwidthx zero = false /\ fleb pixwidthy zero = true /\
   e = ValueError "pixwidthy must be greater than zero!") \/
  (fleb pixwidthx zero = false /\ fleb pixwidthy zero = false /\
   pixcountx <= 0 /\ e = ValueError "pixcountx must be greater than zero!") \/
  (fleb pixwidthx zero = false /\ fleb pixwidthy zero = false /\
   0 < pixcountx /\ pixcounty <= 0 /\
   e = ValueError "pixcounty must be greater than zero!") \/
  (fleb pixwidthx zero = false /\ fleb pixwidthy zero = false /\
   0 < pixcountx /\ 0 < pixcounty /\ ndims kernel <> 2 /\
   e = DimensionMismatch) \/
  (fleb pixwidthx zero = false /\ fleb pixwidthy zero = false /\
   0 < pixcountx /\ 0 < pixcounty /\ ndims kernel = 2 /\ runtime_error e).
Proof.
  unfold interpolate2D.
  destruct (fleb pixwidthx zero); [intros [= <-]; tauto|].
  destruct (fleb pixwidthy zero); [intros [= <-]; tauto|].
  destruct (Z.leb_spec pixcountx 0); [intros [= <-]; tauto|].
  destruct (Z.leb_spec pixcounty 0); [intros [= <-]; tauto|].
  destruct (Z.eqb_spec (ndims kernel) 2); simpl; [|intros [= <-]; tauto].
  intros He. do 5 right. repeat split; try done.
  revert e He. apply may_raise_bind; [apply np_zeros2_runtime|].
  intros image _. apply may_raise_foldM. intros image' particle _.
  apply particle_step_runtime.
Qed.

(** Every error of [interpolate2DCross], with the check that raised it. *)
Lemma interpolate2DCross_errors kernel x1 y1 x2 y2 pixcount data e :
  interpolate2DCross kernel x1 y1 x2 y2 pixcount data = inl e ->
  (np_isclose y2 y1 && np_isclose x2 x1 = true /\
   e = ValueError "Zero length cross section!") \/
  (np_isclose y2 y1 && np_isclose x2 x1 = false /\ pixcount <= 0 /\
   e = ValueError "pixcount must be greater than zero!") \/
  (np_isclose y2 y1 && np_isclose x2 x1 = false /\ 0 < pixcount /\
   ndims kernel <> 2 /\ e = DimensionMismatch) \/
  (np_isclose y2 y1 && np_isclose x2 x1 = false /\ 0 < pixcount /\
   ndims kernel = 2 /\ runtime_error e).
Proof.
  unfold interpolate2DCross.
  destruct (np_isclose y2 y1 && np_isclose x2 x1); [intros [= <-]; tauto|].
  destruct (Z.leb_spec pixcount 0); [intros [= <-]; tauto|].
  destruct (Z.eqb_spec (ndims kernel) 2); simpl; [|intros [= <-]; tauto].
  intros He. do 3 right. repeat split; try done.
  revert e He.
  pose proof cross_step_runtime.
  runtime_steps.
Qed.

Lemma feqb_sym (x y : float) : feqb x y = feqb y x.
Proof.
  unfold feqb, SFeqb, SFcompare.
  destruct x as [[]|[]| |[] m e], y as [[]|[]| |[] m' e']; try reflexivity;
    pose proof (Pos.compare_cont_antisym m m' Eq) as Hm; simpl in Hm;
    rewrite (Z.compare_antisym e e'), <- Hm;
    destruct (e ?= e'), (Pos.compare_cont Eq m m'); reflexivity.
Qed.

Lemma np_isclose_eq (a b : float) : feqb a b = true -> np_isclose a b = true.
Proof. unfold np_isclose. intros ->. apply orb_true_r. Qed.

(** C7: [interpolate2D] raises an InvalidParameter error exactly when one of
    [pixwidthx], [pixwidthy], [pixcountx], [pixcounty] is not positive, and
    this error does not depend on the particles: it is raised before any of
    them is looked at, so no partial image is produced. *)
Theorem interpolate2D_invalid_parameter_iff kernel pixwidthx pixwidthy
    xmin ymin pixcountx pixcounty data :
  ((exists e,
      interpolate2D kernel pixwidthx pixwidthy xmin ymin pixcountx pixcounty
        data = raise e /\ InvalidParameter e)
   <-> (fleb pixwidthx zero = true \/ fleb pixwidthy zero = true \/
        pixcountx <= 0 \/ pixcounty <= 0))
  /\ forall e,
      interpolate2D kernel pixwidthx pixwidthy xmin ymin pixcountx pixcounty
        data = raise e -> InvalidParameter e ->
      forall data',
        interpolate2D kernel pixwidthx pixwidthy xmin ymin pixcountx pixcounty
          data' = raise e.
Proof.
  split; [split|].
  - intros (e & He & Hinv).
    apply interpolate2D_errors in He
      as [(? & _)|[(_ & ? & _)|[(_ & _ & ? & _)|[(_ & _ & _ & ? & _)|
          [(_ & _ & _ & _ & _ & ->)|(_ & _ & _ & _ & _ & Hrt)]]]]]; try tauto.
    + by destruct dimension_mismatch_not_invalid.
    + by destruct (runtime_error_not_invalid e).
  - unfold interpolate2D, InvalidParameter, invalid_parameter_messages.
    destruct (fleb pixwidthx zero);
      [intros _; eexists; split; [done|]; eexists; split; [done|];
       in_list|].
    destruct (fleb pixwidthy zero);
      [intros _; eexists; split; [done|]; eexists; split; [done|];
       in_list|].
    destruct (Z.leb_spec pixcountx 0);
      [intros _; eexists; split; [done|]; eexists; split; [done|];
       in_list|].
    destruct (Z.leb_spec pixcounty 0);
      [intros _; eexists; split; [done|]; eexists; split; [done|];
       in_list|].
    intros [|[|[|]]]; (done || lia).
  - intros e He Hinv data'. revert He.
    unfold interpolate2D.
    destruct (fleb pixwidthx zero); [done|].
    destruct (fleb pixwidthy zero); [done|].
    destruct (pixcountx <=? 0); [done|].
    destruct (pixcounty <=? 0); [done|].
    destruct (ndims kernel =? 2); simpl;
      [|intros [= <-]; by destruct dimension_mismatch_not_invalid].
    intros He. exfalso. apply (runtime_error_not_invalid e); [|done].
    match type of He with ?m = _ => assert (may_raise runtime_error m) as Hm end;
      [|by apply Hm].
    apply may_raise_bind; [apply np_zeros2_runtime|].
    intros image _. apply may_raise_foldM. intros image' particle _.
    apply particle_step_runtime.
Qed.

(** C8: [interpolate2DCross] raises an InvalidParameter error when its two
    endpoints are equal and when [pixcount] is not positive; the error does
    not depend on the particles, none of which is looked at. *)
Theorem interpolate2DCross_invalid_parameter kernel x1 y1 x2 y2 pixcount :
  (feqb x1 x2 = true /\ feqb y1 y2 = true) \/ pixcount <= 0 ->
  exists e, InvalidParameter e /\
    forall data,
      interpolate2DCross kernel x1 y1 x2 y2 pixcount data = raise e.
Proof.
  intros Hbad. unfold interpolate2DCross, InvalidParameter,
    invalid_parameter_messages.
  destruct (np_isclose y2 y1 && np_isclose x2 x1) eqn:Hclose.
  - exists (ValueError "Zero length cross section!").
    split; [eexists; split; [done|]; in_list|done].
  - destruct Hbad as [[Hx Hy]|Hn].
    + rewrite !np_isclose_eq in Hclose by (by rewrite feqb_sym). done.
    + destruct (Z.leb_spec pixcount 0); [|lia].
      exists (ValueError "pixcount must be greater than zero!").
      split; [eexists; split; [done|]; in_list|done].
Qed.

Lemma interpolate2DCross_invalid_parameter_witness :
  exists e, InvalidParameter e /\
    forall data,
      interpolate2DCross Samples.tophat one two one two 8 data = raise e.
Proof.
  apply interpolate2DCross_invalid_parameter. left. split; reflexivity.
Defined.

(** C6, as stated, fails: with a three-dimensional kernel and a zero pixel
    width, [interpolate2D] raises the pixel-width error, not the
    DimensionMismatch error; likewise [interpolate2DCross] on a line of zero
    length. *)
Lemma dimension_mismatch_shadowed :
  ndims Samples.tophat3d <> 2 /\
  interpolate2D Samples.tophat3d zero one zero zero 4 4 []
  = raise (ValueError "pixwidthx must be greater than zero!") /\
  interpolate2D Samples.tophat3d zero one zero zero 4 4 []
  <> raise DimensionMismatch /\
  interpolate2DCross Samples.tophat3d one one one one 8 []
  = raise (ValueError "Zero length cross section!") /\
  interpolate2DCross Samples.tophat3d one one one one 8 []
  <> raise DimensionMismatch.
Proof. repeat split; (reflexivity || discriminate). Qed.

(** C6, amended: when [kernel.ndims] is not 2 and the parameter checks that
    precede the dimension check pass, both entry points raise the
    DimensionMismatch error, whatever the particles are (none has been looked
    at); when [kernel.ndims] is 2, neither ever raises it. *)
Theorem dimension_mismatch_after_parameter_checks kernel
    pixwidthx pixwidthy xmin ymin pixcountx pixcounty
    x1 y1 x2 y2 pixcount data :
  (ndims kernel <> 2 ->
   (fleb pixwidthx zero = false -> fleb pixwidthy zero = false ->
    0 < pixcountx -> 0 < pixcounty ->
    interpolate2D kernel pixwidthx pixwidthy xmin ymin pixcountx pixcounty
      data = raise DimensionMismatch) /\
   (np_isclose y2 y1 && np_isclose x2 x1 = false -> 0 < pixcount ->
    interpolate2DCross kernel x1 y1 x2 y2 pixcount data
    = raise DimensionMismatch)) /\
  (ndims kernel = 2 ->
   interpolate2D kernel pixwidthx pixwidthy xmin ymin pixcountx pixcounty
     data <> raise DimensionMismatch /\
   interpolate2DCross kernel x1 y1 x2 y2 pixcount data
   <> raise DimensionMismatch).
Proof.
  split.
  - intros Hd. split.
    + intros Hx Hy Hcx Hcy. unfold interpolate2D. rewrite Hx, Hy.
      destruct (Z.leb_spec pixcountx 0); [lia|].
      destruct (Z.leb_spec pixcounty 0); [lia|].
      by destruct (Z.eqb_spec (ndims kernel) 2).
    + intros Hclose Hn. unfold interpolate2DCross. rewrite Hclose.
      destruct (Z.leb_spec pixcount 0); [lia|].
      by destruct (Z.eqb_spec (ndims kernel) 2).
  - intros Hd. split.
    + intros He. apply interpolate2D_errors in He
        as [(_ & ?)|[(_ & _ & ?)|[(_ & _ & _ & ?)|[(_ & _ & _ & _ & ?)|
            [(_ & _ & _ & _ & ? & _)|(_ & _ & _ & _ & _ & Hrt)]]]]];
        try done.
      by apply runtime_error_not_dimension in Hrt.
    + intros He. apply interpolate2DCross_errors in He
        as [(_ & ?)|[(_ & _ & ?)|[(_ & _ & ? & _)|(_ & _ & _ & Hrt)]]];
        try done.
      by apply runtime_error_not_dimension in Hrt.
Qed.

Lemma dimension_mismatch_after_parameter_checks_witness :
  interpolate2D Samples.tophat3d one one zero zero 4 4 []
  = raise DimensionMismatch /\
  interpolate2DCross Samples.tophat3d zero zero one one 8 []
  = raise DimensionMismatch.
Proof.
  pose proof (dimension_mismatch_after_parameter_checks Samples.tophat3d
                one one zero zero 4 4 zero zero one one 8 []) as [H _].
  destruct H as [H2 HC]; [discriminate|].
  split; [apply H2 | apply HC]; (reflexivity || lia).
Defined.

(** ** Array accesses within bounds *)

Lemma norm_index_in (len : nat) (i : Z) :
  0 <= i < Z.of_nat len -> norm_index len i = ret (Z.to_nat i).
Proof.
  intros Hi. unfold norm_index.
  destruct (Z.leb_spec 0 i); [|lia].
  destruct (Z.ltb_spec i (Z.of_nat len)); [done|lia].
Qed.

Lemma getitem_in {A : Type} (a : list A) (i : Z) :
  0 <= i < Z.of_nat (length a) ->
  exists v, a !! Z.to_nat i = Some v /\ getitem a i = ret v.
Proof.
  intros Hi. unfold getitem. rewrite norm_index_in by done. simpl.
  destruct (lookup_lt_is_Some_2 a (Z.to_nat i)) as [v Hv]; [lia|].
  exists v. by rewrite Hv.
Qed.

Lemma setitem_in {A : Type} (a : list A) (i : Z) (v : A) :
  0 <= i < Z.of_nat (length a) ->
  setitem a i v = ret (<[Z.to_nat i := v]> a).
Proof. intros Hi. unfold setitem. by rewrite norm_index_in. Qed.

Lemma shape_replicate (rows cols : Z) :
  shape rows cols (replicate (Z.to_nat rows) (replicate (Z.to_nat cols) zero)).
Proof.
  split; [apply length_replicate|].
  apply Forall_replicate, length_replicate.
Qed.

Lemma pixel_replicate (rows cols j i : Z) :
  pixel (replicate (Z.to_nat rows) (replicate (Z.to_nat cols) zero)) j i = zero.
Proof.
  unfold pixel.
  destruct (replicate _ _ !! Z.to_nat j) as [row|] eqn:Hrow; simpl; [|done].
  apply lookup_replicate in Hrow as [-> _].
  destruct (replicate _ _ !! Z.to_nat i) as [v|] eqn:Hv; simpl; [|done].
  by apply lookup_replicate in Hv as [-> _].
Qed.

(** [image[j][i] += v] within the image: only the pixel [(j, i)] changes. *)
Lemma iadd2_in (rows cols : Z) (image : list (list float)) (j i : Z)
    (v : float) :
  shape rows cols image -> 0 <= j < rows -> 0 <= i < cols ->
  exists image',
    iadd2 image j i v = ret image' /\ shape rows cols image' /\
    forall j' i', 0 <= j' -> 0 <= i' ->
      pixel image' j' i'
      = if decide (j' = j /\ i' = i) then fadd (pixel image j i) v
        else pixel image j' i'.
Proof.
  intros [Hlen Hrows] Hj Hi. unfold iadd2.
  destruct (getitem_in image j) as (row & Hrow & ->); [lia|]. simpl.
  assert (length row = Z.to_nat cols) as Hrl
    by apply (Forall_lookup_1 _ _ _ _ Hrows Hrow).
  destruct (getitem_in row i) as (old & Hold & ->); [lia|]. simpl.
  rewrite setitem_in by lia. simpl. rewrite setitem_in by lia.
  eexists. split; [done|]. split.
  - split; [by rewrite length_insert|].
    apply Forall_insert; [done|]. by rewrite length_insert.
  - intros j' i' Hj' Hi'. unfold pixel.
    destruct (decide (j' = j)) as [->|Hne].
    + rewrite list_lookup_insert_eq by lia. rewrite !Hrow. simpl.
      destruct (decide (i' = i)) as [->|Hne].
      * rewrite list_lookup_insert_eq by lia. rewrite Hold.
        by rewrite decide_True.
      * rewrite list_lookup_insert_ne by lia.
        rewrite decide_False by tauto. done.
    + rewrite list_lookup_insert_ne by lia.
      rewrite decide_False by tauto. done.
Qed.

Lemma foldM_fmap {A B S : Type} (f : S -> B -> Exc S) (g : A -> B)
    (l : list A) (s : S) :
  foldM f (g <$> l) s = foldM (fun s a => f s (g a)) l s.
Proof.
  revert s. induction l as [|a l IH]; intros s; simpl; [done|].
  destruct (f s (g a)); simpl; [done | apply IH].
Qed.

Lemma foldM_nested {S : Type} (f : S -> Z -> Z -> Exc S)
    (rows cols : list Z) (s : S) :
  foldM (fun s j => foldM (fun s i => f s j i) cols s) rows s
  = foldM (fun s c => f s c.1 c.2) (grid rows cols) s.
Proof.
  revert s. induction rows as [|j rows IH]; intros s; [done|].
  unfold grid. rewrite bind_cons, foldM_app, foldM_fmap. simpl.
  destruct (foldM _ cols s); simpl; [done | apply IH].
Qed.

Lemma elem_of_grid (rows cols : list Z) (j i : Z) :
  (j, i) ∈ grid rows cols <-> j ∈ rows /\ i ∈ cols.
Proof.
  unfold grid. rewrite list_elem_of_bind. split.
  - intros (j' & Hin & Hj'). apply list_elem_of_fmap in Hin as (i' & [= -> ->] & Hi').
    done.
  - intros [Hj Hi]. exists j. split; [|done]. by apply list_elem_of_fmap_2.
Qed.

Lemma NoDup_grid (rows cols : list Z) :
  NoDup rows -> NoDup cols -> NoDup (grid rows cols).
Proof.
  intros Hrows Hcols. apply NoDup_bind; [| |done].
  - intros j1 j2 [j i] _ _ (? & [= -> ->] & _)%list_elem_of_fmap
      (? & [= -> ->] & _)%list_elem_of_fmap. done.
  - intros j _. apply (NoDup_fmap_2 _). done.
Qed.

(** A loop of [+=] over distinct pixels of the image adds the given value at
    each of them and leaves the others as they were. *)
Lemma foldM_iadd2 (rows cols : Z) (v : Z -> Z -> float)
    (cells : list (Z * Z)) (image : list (list float)) :
  shape rows cols image -> NoDup cells ->
  (forall c, c ∈ cells -> 0 <= c.1 < rows /\ 0 <= c.2 < cols) ->
  exists image',
    foldM (fun im c => iadd2 im c.1 c.2 (v c.1 c.2)) cells image = ret image' /\
    shape rows cols image' /\
    forall j i, 0 <= j -> 0 <= i ->
      pixel image' j i
      = if decide ((j, i) ∈ cells) then fadd (pixel image j i) (v j i)
        else pixel image j i.
Proof.
  revert image. induction cells as [|[j0 i0] cells IH]; intros image Hsh Hnd Hin.
  - exists image. split; [done|]. split; [done|]. intros j i _ _.
    rewrite decide_False; [done|]. apply not_elem_of_nil.
  - apply NoDup_cons in Hnd as [Hnotin Hnd].
    destruct (Hin (j0, i0)) as [Hj0 Hi0]; [apply list_elem_of_here|].
    simpl in Hj0, Hi0.
    destruct (iadd2_in rows cols image j0 i0 (v j0 i0)) as (image1 & Hstep & Hsh1 & Hpix1);
      [done..|].
    destruct (IH image1) as (image' & Hfold & Hsh' & Hpix'); [done|done| |].
    { intros c Hc. by apply Hin, list_elem_of_further. }
    exists image'. split; [simpl; by rewrite Hstep|]. split; [done|].
    intros j i Hj Hi. rewrite Hpix', !Hpix1 by lia.
    destruct (decide ((j, i) ∈ cells)) as [Hc|Hc],
      (decide ((j, i) ∈ (j0, i0) :: cells)) as [Hc'|Hc'],
      (decide (j = j0 /\ i = i0)) as [[-> ->]|Hne];
      try done; exfalso;
      first [ apply Hc', list_elem_of_further, Hc
            | apply Hc', list_elem_of_here
            | apply elem_of_cons in Hc' as [[= -> ->]|?]; tauto ].
Qed.

Lemma elem_of_py_range (a b i : Z) : i ∈ py_range a b <-> a <= i < b.
Proof. unfold py_range. rewrite elem_of_seqZ. lia. Qed.

Lemma py_range_empty (a b : Z) : b <= a -> py_range a b = [].
Proof.
  intros Hab. unfold py_range, seqZ.
  replace (Z.to_nat (b - a)) with 0%nat by lia. done.
Qed.

(** A loop of stores into a buffer, all within its bounds. *)
Lemma foldM_setitem (g : Z -> float) (l : list Z) (buf : list float) :
  (forall i, i ∈ l -> 0 <= i < Z.of_nat (length buf)) ->
  exists buf',
    foldM (fun b i => setitem b i (g i)) l buf = ret buf' /\
    length buf' = length buf /\
    forall i, 0 <= i ->
      buf' !! Z.to_nat i
      = if decide (i ∈ l) then Some (g i) else buf !! Z.to_nat i.
Proof.
  revert buf. induction l as [|a l IH]; intros buf Hin.
  - exists buf. split; [done|]. split; [done|]. intros i _.
    rewrite decide_False; [done|]. apply not_elem_of_nil.
  - assert (0 <= a < Z.of_nat (length buf)) as Ha
      by apply Hin, list_elem_of_here.
    destruct (IH (<[Z.to_nat a := g a]> buf)) as (buf' & Hfold & Hlen & Hget).
    { intros i Hi. rewrite length_insert. by apply Hin, list_elem_of_further. }
    exists buf'. split; [|split].
    + simpl. by rewrite setitem_in.
    + by rewrite Hlen, length_insert.
    + intros i Hi. rewrite Hget by done.
      destruct (decide (i ∈ l)) as [Hl|Hl],
        (decide (i ∈ a :: l)) as [Hal|Hal]; try done.
      * destruct Hal. by apply list_elem_of_further.
      * apply elem_of_cons in Hal as [->|?]; [|done].
        by rewrite list_lookup_insert_eq by lia.
      * rewrite list_lookup_insert_ne; [done|].
        intros Heq. apply Hal. replace i with a by lia.
        apply list_elem_of_here.
Qed.

Section ParticleStep.

Variable kernel : BaseKernel.
Variables pixwidthx pixwidthy xmin ymin : float.
Variables pixcountx pixcounty : Z.

#[local] Abbreviation raw_bounds' := (raw_bounds kernel pixwidthx pixwidthy xmin ymin).
#[local] Abbreviation clamp_bounds' := (clamp_bounds pixcountx pixcounty).
#[local] Abbreviation particle_step' :=
  (particle_step kernel pixwidthx pixwidthy xmin ymin pixcountx pixcounty).
#[local] Abbreviation contribution' :=
  (contribution kernel pixwidthx pixwidthy xmin ymin pixcountx pixcounty).
#[local] Abbreviation contributions' :=
  (contributions kernel pixwidthx pixwidthy xmin ymin pixcountx pixcounty).

(** The clamped index ranges lie within the image. *)
Lemma clamp_bounds_range (raw : Z * Z * Z * Z) ipixmin jpixmin ipixmax jpixmax :
  clamp_bounds' raw = (ipixmin, jpixmin, ipixmax, jpixmax) ->
  0 <= ipixmin /\ ipixmax <= pixcountx /\ 0 <= jpixmin /\ jpixmax <= pixcounty.
Proof.
  destruct raw as [[[a b] c] d]. unfold clamp_bounds.
  destruct (Z.ltb_spec a 0), (Z.gtb_spec c pixcountx),
    (Z.ltb_spec b 0), (Z.gtb_spec d pixcounty); intros [= <- <- <- <-]; lia.
Qed.

(** The buffer of x-differences holds [dx2_of] at every column of the
    particle's range. *)
Lemma fill_dx2i_spec (particle : Particle) (ipixmin ipixmax : Z) :
  0 <= pixcountx -> 0 <= ipixmin -> ipixmax <= pixcountx ->
  exists dx2i,
    fill_dx2i pixwidthx xmin pixcountx particle ipixmin ipixmax = ret dx2i /\
    forall i, ipixmin <= i < ipixmax ->
      getitem dx2i i = ret (dx2_of pixwidthx xmin particle i).
Proof.
  intros Hn Hlo Hhi. unfold fill_dx2i, np_zeros.
  destruct (Z.ltb_spec pixcountx 0); [lia|]. simpl.
  destruct (foldM_setitem (dx2_of pixwidthx xmin particle)
              (py_range ipixmin ipixmax)
              (replicate (Z.to_nat pixcountx) zero))
    as (dx2i & Hfold & Hlen & Hget).
  { intros i Hi%elem_of_py_range. rewrite length_replicate. lia. }
  exists dx2i. split; [done|]. intros i Hi.
  rewrite length_replicate in Hlen.
  destruct (getitem_in dx2i i) as (v & Hv & ->); [lia|].
  rewrite Hget, decide_True in Hv by (lia || by apply elem_of_py_range).
  by injection Hv as ->.
Qed.

(** The accumulation loops of one particle over its rectangle. *)
Lemma accumulate_rows_spec (particle : Particle) (dx2i : list float)
    (ipixmin jpixmin ipixmax jpixmax : Z) (image : list (list float)) :
  shape pixcounty pixcountx image ->
  0 <= ipixmin -> ipixmax <= pixcountx ->
  0 <= jpixmin -> jpixmax <= pixcounty ->
  (forall i, ipixmin <= i < ipixmax ->
     getitem dx2i i = ret (dx2_of pixwidthx xmin particle i)) ->
  exists image',
    foldM (accumulate_row kernel pixwidthy ymin particle dx2i ipixmin ipixmax)
      (py_range jpixmin jpixmax) image = ret image' /\
    shape pixcounty pixcountx image' /\
    forall j i, 0 <= j -> 0 <= i ->
      pixel image' j i
      = if in_rect (ipixmin, jpixmin, ipixmax, jpixmax) j i
        then fadd (pixel image j i)
               (cell_value kernel pixwidthx pixwidthy xmin ymin particle j i)
        else pixel image j i.
Proof.
  intros Hsh Hi0 Hi1 Hj0 Hj1 Hdx.
  destruct (foldM_iadd2 pixcounty pixcountx
              (cell_value kernel pixwidthx pixwidthy xmin ymin particle)
              (grid (py_range jpixmin jpixmax) (py_range ipixmin ipixmax))
              image) as (image' & Hfold & Hsh' & Hpix); [done| |..].
  { apply NoDup_grid; apply NoDup_seqZ. }
  { intros [j i] [Hj Hi]%elem_of_grid.
    apply elem_of_py_range in Hj, Hi. simpl. lia. }
  exists image'. split; [|split; [done|]].
  - rewrite <- Hfold.
    rewrite <- (foldM_nested
                  (fun im j i =>
                     iadd2 im j i
                       (cell_value kernel pixwidthx pixwidthy xmin ymin
                          particle j i))).
    unfold accumulate_row.
    apply foldM_ext_in. intros im j _. apply foldM_ext_in.
    intros im' i Hi%elem_of_py_range. by rewrite Hdx.
  - intros j i Hj Hi. rewrite Hpix by done. unfold in_rect.
    destruct (decide ((j, i) ∈ grid (py_range jpixmin jpixmax)
                                 (py_range ipixmin ipixmax))) as [Hin|Hout].
    + apply elem_of_grid in Hin as [Hjr%elem_of_py_range Hir%elem_of_py_range].
      destruct (Z.leb_spec jpixmin j), (Z.ltb_spec j jpixmax),
        (Z.leb_spec ipixmin i), (Z.ltb_spec i ipixmax); (done || lia).
    + rewrite elem_of_grid, !elem_of_py_range in Hout.
      destruct (Z.leb_spec jpixmin j), (Z.ltb_spec j jpixmax),
        (Z.leb_spec ipixmin i), (Z.ltb_spec i ipixmax); (done || lia).
Qed.

(** The loop body on an image of the validated shape: a skipped particle
    leaves the image as it is; otherwise the body raises exactly when an
    index conversion raises, and else adds the particle's contribution to
    every pixel of its rectangle and to no other. *)
Lemma particle_step_spec (image : list (list float)) (particle : Particle) :
  0 <= pixcountx -> shape pixcounty pixcountx image ->
  match (if fleb (weight_of particle) zero then ret (0, 0, 0, 0)
         else raw_bounds' particle) with
  | inl e => particle_step' image particle = inl e
  | inr _ =>
      exists image',
        particle_step' image particle = ret image' /\
        shape pixcounty pixcountx image' /\
        forall j i, 0 <= j -> 0 <= i ->
          pixel image' j i
          = match contribution' particle j i with
            | Some v => fadd (pixel image j i) v
            | None => pixel image j i
            end
  end.
Proof.
  intros Hn Hsh. unfold particle_step, contribution.
  destruct (fleb (weight_of particle) zero).
  { exists image. split; [done|]. split; done. }
  destruct (raw_bounds' particle) as [e|raw]; simpl; [done|].
  destruct (clamp_bounds' raw) as [[[ipixmin jpixmin] ipixmax] jpixmax] eqn:Hcl.
  apply clamp_bounds_range in Hcl as (Hi0 & Hi1 & Hj0 & Hj1).
  destruct (fill_dx2i_spec particle ipixmin ipixmax) as (dx2i & -> & Hdx);
    [done..|]. simpl.
  destruct (accumulate_rows_spec particle dx2i ipixmin jpixmin ipixmax jpixmax
              image) as (image' & Hfold & Hsh' & Hpix); [done..|].
  exists image'. split; [done|]. split; [done|].
  intros j i Hj Hi. rewrite Hpix by done. unfold in_rect.
  by destruct (_ && _).
Qed.

Lemma foldM_id {A S : Type} (f : S -> A -> Exc S) (l : list A) (s : S) :
  (forall a, a ∈ l -> f s a = ret s) -> foldM f l s = ret s.
Proof.
  induction l as [|a l IH]; intros Hf; simpl; [done|].
  rewrite Hf by apply list_elem_of_here. simpl.
  apply IH. intros b Hb. by apply Hf, list_elem_of_further.
Qed.

(** A particle whose clamped rectangle is empty leaves the image as it is. *)
Lemma particle_step_empty (image : list (list float)) (particle : Particle)
    (raw : Z * Z * Z * Z) ipixmin jpixmin ipixmax jpixmax :
  0 <= pixcountx ->
  raw_bounds' particle = ret raw ->
  clamp_bounds' raw = (ipixmin, jpixmin, ipixmax, jpixmax) ->
  ipixmax <= ipixmin \/ jpixmax <= jpixmin ->
  particle_step' image particle = ret image.
Proof.
  intros Hn Hraw Hcl Hempty. unfold particle_step.
  destruct (fleb (weight_of particle) zero); [done|].
  rewrite Hraw. simpl. rewrite Hcl.
  pose proof (clamp_bounds_range _ _ _ _ _ Hcl) as (Hi0 & Hi1 & Hj0 & Hj1).
  destruct (fill_dx2i_spec particle ipixmin ipixmax) as (dx2i & -> & _);
    [done..|]. simpl.
  destruct Hempty as [Hi|Hj].
  - apply foldM_id. intros j _. unfold accumulate_row.
    by rewrite (py_range_empty ipixmin ipixmax).
  - by rewrite (py_range_empty jpixmin jpixmax).
Qed.

(** Whether the index conversions of a particle that is not skipped
    succeed. *)
Lemma converts_spec (particle : Particle) :
  converts kernel pixwidthx pixwidthy xmin ymin particle = true <->
  fleb (weight_of particle) zero = true \/
  exists raw, raw_bounds' particle = ret raw.
Proof.
  unfold converts. destruct (fleb (weight_of particle) zero); [tauto|].
  destruct (raw_bounds' particle) as [e|raw]; split; try done.
  - intros [?|[raw ?]]; done.
  - intros _. right. by exists raw.
Qed.

(** The loop over the particles, from an image of the validated shape: it
    returns exactly when every index conversion succeeds, and then every
    pixel is its initial value plus the contributions of the particles, added
    one after the other in the order of the particles. *)
Lemma foldM_particle_step_spec (data : list Particle)
    (image : list (list float)) :
  0 <= pixcountx -> shape pixcounty pixcountx image ->
  match foldM particle_step' data image with
  | inl e =>
      exists particle,
        particle ∈ data /\ fleb (weight_of particle) zero = false /\
        raw_bounds' particle = inl e
  | inr image' =>
      Forall (fun particle =>
                converts kernel pixwidthx pixwidthy xmin ymin particle = true)
             data /\
      shape pixcounty pixcountx image' /\
      forall j i, 0 <= j -> 0 <= i ->
        pixel image' j i
        = foldl fadd (pixel image j i) (contributions' data j i)
  end.
Proof.
  intros Hn. revert image.
  induction data as [|particle data IH]; intros image Hsh; simpl.
  - split; [constructor|]. split; done.
  - pose proof (particle_step_spec image particle Hn Hsh) as Hstep.
    pose proof (converts_spec particle) as Hconv.
    unfold contributions. simpl.
    destruct (fleb (weight_of particle) zero) eqn:Hw.
    + destruct Hstep as (image1 & -> & Hsh1 & Hpix1). simpl.
      specialize (IH image1 Hsh1).
      destruct (foldM _ data image1) as [e|image'].
      * destruct IH as (q & Hq & Hqw & Hqe). exists q.
        split; [by apply list_elem_of_further|done].
      * destruct IH as (Hall & Hsh' & Hpix').
        split; [apply Forall_cons; split; [apply Hconv; by left|done]|].
        split; [done|]. intros j i Hj Hi.
        rewrite Hpix', Hpix1 by done.
        by destruct (contribution' particle j i).
    + destruct (raw_bounds' particle) as [e|raw] eqn:Hraw.
      * rewrite Hstep. simpl. exists particle.
        split; [apply list_elem_of_here|done].
      * destruct Hstep as (image1 & -> & Hsh1 & Hpix1). simpl.
        specialize (IH image1 Hsh1).
        destruct (foldM _ data image1) as [e|image'].
        -- destruct IH as (q & Hq & Hqw & Hqe). exists q.
           split; [by apply list_elem_of_further|done].
        -- destruct IH as (Hall & Hsh' & Hpix').
           split; [apply Forall_cons; split;
                   [apply Hconv; right; by exists raw|done]|].
           split; [done|]. intros j i Hj Hi.
           rewrite Hpix', Hpix1 by done.
           by destruct (contribution' particle j i).
Qed.

End ParticleStep.

(** ** The pixels a particle writes *)



(** ** Array bounds *)



(** ** Signs of rounded products and quotients *)

Lemma shr_1_nonneg (mrs : shr_record) :
  0 <= shr_m mrs -> 0 <= shr_m (shr_1 mrs).
Proof. destruct mrs as [[|[]|[]] r s]; simpl; lia. Qed.

Lemma iter_shr_1_nonneg (p : positive) (mrs : shr_record) :
  0 <= shr_m mrs -> 0 <= shr_m (iter_pos shr_1 p mrs).
Proof.
  revert mrs. induction p as [p IH|p IH|]; intros mrs Hm; simpl.
  - apply IH, IH, shr_1_nonneg, Hm.
  - apply IH, IH, Hm.
  - apply shr_1_nonneg, Hm.
Qed.

Lemma shr_fexp_nonneg (m e : Z) (l : location) :
  0 <= m -> 0 <= shr_m (shr_fexp prec emax m e l).1.
Proof.
  intros Hm. unfold shr_fexp, shr.
  assert (0 <= shr_m (shr_record_of_loc m l)) as Hrec
    by (by destruct l as [|[]]).
  destruct (_ - e); simpl; [done| |done].
  by apply iter_shr_1_nonneg.
Qed.

Lemma round_nearest_even_nonneg (m : Z) (l : location) :
  0 <= m -> 0 <= round_nearest_even m l.
Proof.
  intros Hm. destruct l as [|[]]; simpl; try lia.
  destruct (Z.even m); lia.
Qed.

(** Rounding keeps the sign: the result is a zero, a finite number or an
    infinity of the sign that was asked for. *)
Lemma binary_round_aux_sign (s : bool) (m e : Z) (l : location) :
  0 <= m -> fsign (binary_round_aux prec emax s m e l) = Some s.
Proof.
  intros Hm. unfold binary_round_aux.
  pose proof (shr_fexp_nonneg m e l Hm) as H1.
  destruct (shr_fexp prec emax m e l) as [mrs' e']. simpl in H1.
  pose proof (shr_fexp_nonneg _ e' loc_Exact
                (round_nearest_even_nonneg _ (loc_of_shr_record mrs') H1))
    as H2.
  destruct (shr_fexp prec emax _ e' loc_Exact) as [mrs'' e'']. simpl in H2.
  destruct (shr_m mrs''); [done| |lia].
  by destruct (_ <=? _).
Qed.

Lemma fmul_sign (x y : float) (sx sy : bool) :
  is_finite x = true -> is_zero x = false ->
  fsign x = Some sx -> fsign y = Some sy ->
  fsign (fmul x y) = Some (xorb sx sy).
Proof.
  destruct x as [| | |sx' mx ex]; try done. intros _ _ [= ->].
  destruct y as [sy'|sy'| |sy' my ey]; try done; intros [= ->]; try done.
  apply binary_round_aux_sign. lia.
Qed.

Lemma fsquare_sign (x : float) :
  is_finite x = true -> fsign (fsquare x) = Some false.
Proof.
  destruct x as [s| | |s m e]; try done; intros _; simpl.
  - by destruct s.
  - unfold fsquare, fmul. simpl.
    rewrite binary_round_aux_sign by lia. by destruct s.
Qed.

Lemma div_core_nonneg (m1 m2 : positive) (e1 e2 : Z) :
  0 <= (SFdiv_core_binary prec emax (Z.pos m1) e1 (Z.pos m2) e2).1.1.
Proof.
  unfold SFdiv_core_binary.
  set (m' := match _ - _ with Z0 => _ | Z.pos _ => _ | Z.neg _ => _ end).
  assert (0 <= m') as Hm'.
  { subst m'. destruct (_ - _); [lia| |lia]. apply Z.shiftl_nonneg. lia. }
  pose proof (Z.div_pos m' (Z.pos m2) Hm' ltac:(lia)) as Hq.
  unfold Z.div in Hq. by destruct (Z.div_eucl m' (Z.pos m2)).
Qed.

Lemma fdiv_sign (x y : float) (sx sy : bool) :
  is_finite x = true -> is_zero x = false ->
  fsign x = Some sx -> fsign y = Some sy ->
  fsign (fdiv x y) = Some (xorb sx sy).
Proof.
  destruct x as [| | |sx' mx ex]; try done. intros _ _ [= ->].
  destruct y as [sy'|sy'| |sy' my ey]; try done; intros [= ->]; try done.
  unfold fdiv, SFdiv.
  pose proof (div_core_nonneg mx my ex ey) as Hq.
  destruct (SFdiv_core_binary _ _ _ _ _ _) as [[mz ez] lz].
  by apply binary_round_aux_sign.
Qed.

Lemma fleb_zero_of_negative (x : float) :
  fsign x = Some true -> fleb x zero = true.
Proof. by destruct x as [[]|[]| |[] m e]. Qed.

Lemma finite_negative (x : float) :
  is_finite x = true -> fltb x zero = true ->
  is_zero x = false /\ fsign x = Some true.
Proof. by destruct x as [[]|[]| |[] m e]. Qed.

Lemma finite_positive (x : float) :
  is_finite x = true -> fltb zero x = true ->
  is_zero x = false /\ fsign x = Some false.
Proof. by destruct x as [[]|[]| |[] m e]. Qed.

(** The weight of a particle with finite mass, density and smoothing length,
    the latter not zero, is at most 0 when mass and density have opposite
    signs. *)
Lemma weight_of_opposite_signs (particle : Particle) :
  is_finite (p_m particle) = true -> is_finite (p_rho particle) = true ->
  is_finite (p_h particle) = true ->
  (fltb (p_m particle) zero = true /\ fltb zero (p_rho particle) = true) \/
  (fltb zero (p_m particle) = true /\ fltb (p_rho particle) zero = true) ->
  fleb (weight_of particle) zero = true.
Proof.
  intros Hm Hrho Hh Hsigns. apply fleb_zero_of_negative. unfold weight_of.
  pose proof (fsquare_sign _ Hh) as Hh2.
  destruct Hsigns as [[Hneg Hpos]|[Hpos Hneg]];
    apply finite_negative in Hneg as [Hnz Hs]; try done;
    apply finite_positive in Hpos as [Hnz' Hs']; try done.
  - change (Some true) with (Some (xorb true (xorb false false))).
    apply fdiv_sign; try done. by apply fmul_sign.
  - change (Some true) with (Some (xorb false (xorb true false))).
    apply fdiv_sign; try done. by apply fmul_sign.
Qed.

(** The weight of a massless particle is a zero unless [rho * h ** 2]
    is itself zero or NaN. *)
Lemma weight_of_massless (particle : Particle) :
  is_zero (p_m particle) = true ->
  is_zero (fmul (p_rho particle) (fsquare (p_h particle))) = false ->
  is_nan (fmul (p_rho particle) (fsquare (p_h particle))) = false ->
  fleb (weight_of particle) zero = true.
Proof.
  unfold weight_of. destruct (p_m particle) as [s| | |]; try done.
  by destruct (fmul _ _) as [| | |].
Qed.

(** ** Particles that add nothing *)

(** A particle whose loop body returns the image it was given can be removed
    from the input without changing the result. *)
Lemma interpolate2D_drop kernel pixwidthx pixwidthy xmin ymin
    pixcountx pixcounty (pre post : list Particle) (particle : Particle) :
  (0 < pixcountx -> forall image, shape pixcounty pixcountx image ->
     particle_step kernel pixwidthx pixwidthy xmin ymin pixcountx pixcounty
       image particle = ret image) ->
  interpolate2D kernel pixwidthx pixwidthy xmin ymin pixcountx pixcounty
    (pre ++ particle :: post)
  = interpolate2D kernel pixwidthx pixwidthy xmin ymin pixcountx pixcounty
      (pre ++ post).
Proof.
  intros Hstep. unfold interpolate2D.
  destruct (fleb pixwidthx zero); [done|].
  destruct (fleb pixwidthy zero); [done|].
  destruct (Z.leb_spec pixcountx 0); [done|].
  destruct (Z.leb_spec pixcounty 0); [done|].
  destruct (negb _); [done|]. unfold np_zeros2.
  destruct (Z.ltb_spec pixcounty 0); [lia|].
  destruct (Z.ltb_spec pixcountx 0); [lia|]. simpl.
  rewrite !foldM_app.
  pose proof (foldM_particle_step_spec kernel pixwidthx pixwidthy xmin ymin
                pixcountx pixcounty pre _
                ltac:(lia) (shape_replicate pixcounty pixcountx)) as Hspec.
  destruct (foldM _ pre _) as [e|image]; simpl; [done|].
  destruct Hspec as (_ & Hsh & _). by rewrite Hstep.
Qed.

(** C2, as stated, fails: a particle with negative mass and negative density
    has a positive weight and is added to the image, and so is a particle
    with zero density and positive mass, whose weight is infinite. *)
Lemma nonpositive_mass_or_density_contributes :
  (fleb (p_m Samples.negative) zero = true /\
   fleb (p_rho Samples.negative) zero = true /\
   is_finite (p_h Samples.negative) = true /\
   is_zero (p_h Samples.negative) = false /\
   interpolate2D Samples.tophat one one zero zero 4 4 [Samples.negative]
   <> interpolate2D Samples.tophat one one zero zero 4 4 []) /\
  (fleb (p_rho Samples.zero_rho) zero = true /\
   is_finite (p_h Samples.zero_rho) = true /\
   is_zero (p_h Samples.zero_rho) = false /\
   interpolate2D Samples.tophat one one zero zero 4 4 [Samples.zero_rho]
   <> interpolate2D Samples.tophat one one zero zero 4 4 []).
Proof. repeat split; (reflexivity || (vm_compute; discriminate)). Qed.

(** C2, amended: a particle whose weight [m / (rho * h ** 2)] is at most 0
    adds nothing to the image of [interpolate2D]: the result is the result
    without the particle.  The weight is at most 0 when [m], [rho] and [h]
    are finite and one of [m], [rho] is negative and the other positive, and
    when [m] is zero while [rho * h ** 2] is neither zero nor NaN. *)
Theorem nonpositive_weight_contributes_nothing kernel pixwidthx pixwidthy
    xmin ymin pixcountx pixcounty (pre post : list Particle)
    (particle : Particle) :
  fleb (weight_of particle) zero = true \/
  (is_finite (p_m particle) = true /\ is_finite (p_rho particle) = true /\
   is_finite (p_h particle) = true /\
   ((fltb (p_m particle) zero = true /\ fltb zero (p_rho particle) = true) \/
    (fltb zero (p_m particle) = true /\ fltb (p_rho particle) zero = true))) \/
  (is_zero (p_m particle) = true /\
   is_zero (fmul (p_rho particle) (fsquare (p_h particle))) = false /\
   is_nan (fmul (p_rho particle) (fsquare (p_h particle))) = false) ->
  interpolate2D kernel pixwidthx pixwidthy xmin ymin pixcountx pixcounty
    (pre ++ particle :: post)
  = interpolate2D kernel pixwidthx pixwidthy xmin ymin pixcountx pixcounty
      (pre ++ post).
Proof.
  intros Hcases.
  assert (fleb (weight_of particle) zero = true) as Hw.
  { destruct Hcases as [?|[(Hm & Hrho & Hh & Hs)|(Hm & Hz & Hn)]]; [done| |].
    - by apply weight_of_opposite_signs.
    - by apply weight_of_massless. }
  apply interpolate2D_drop. intros _ image _.
  unfold particle_step. by rewrite Hw.
Qed.

Lemma nonpositive_weight_contributes_nothing_witness :
  interpolate2D Samples.tophat one one zero zero 4 4
    ([Samples.centre] ++ Samples.negative_mass :: [Samples.centre])
  = interpolate2D Samples.tophat one one zero zero 4 4
      ([Samples.centre] ++ [Samples.centre]).
Proof.
  apply nonpositive_weight_contributes_nothing.
  right. left. repeat split. left. split; reflexivity.
Defined.

(** ** A zero smoothing length *)

(** With a radius of zero, the lower and the upper index of an axis are the
    same integer. *)
Lemma zero_radius_same_index (x r o pw : float) :
  is_zero r = true ->
  py_int (np_rint (fdiv (fsub (fsub x r) o) pw))
  = py_int (np_rint (fdiv (fsub (fadd x r) o) pw)).
Proof.
  destruct r as [sr| | |]; try done. intros _.
  destruct x as [[]|[]| |[] mx ex], sr, o as [[]|[]| |[] mo eo],
    pw as [[]|[]| |[] mp ep]; reflexivity.
Qed.

Lemma zero_radius_bounds kernel pixwidthx pixwidthy xmin ymin
    (particle : Particle) (raw : Z * Z * Z * Z) :
  is_zero (radkern_of kernel particle) = true ->
  raw_bounds kernel pixwidthx pixwidthy xmin ymin particle = ret raw ->
  raw.1.1.1 = raw.1.2 /\ raw.1.1.2 = raw.2.
Proof.
  intros Hr. unfold raw_bounds.
  rewrite <- !(zero_radius_same_index _ (radkern_of kernel particle)) by done.
  destruct (py_int _) as [|a]; [done|]. simpl.
  destruct (py_int _) as [|b]; [done|]. simpl.
  by intros [= <-].
Qed.

(** C9, as stated, fails: the image computed from a particle of zero
    smoothing length, positive mass and positive density holds no
    non-finite value; it is the image of zeros. *)
Lemma zero_smoothing_length_image_is_finite :
  is_zero (p_h Samples.zero_h) = true /\
  fltb zero (p_m Samples.zero_h) = true /\
  fltb zero (p_rho Samples.zero_h) = true /\
  interpolate2D Samples.tophat one one zero zero 4 4 [Samples.zero_h]
  = ret (replicate 4%nat (replicate 4%nat zero)).
Proof. repeat split. Qed.

(** C9, amended: for a particle with [h = 0], positive mass and finite
    positive density, the weight is computed by a division by zero and is
    plus infinity, so the particle is not skipped, and [1 / h] and its square
    are infinite; but with a finite kernel radius [radkern] is zero, the lower
    and upper pixel indices coincide and the particle writes no pixel: when
    its index conversions succeed the result is the result without the
    particle. *)
Theorem zero_smoothing_length kernel pixwidthx pixwidthy xmin ymin
    pixcountx pixcounty (pre post : list Particle) (particle : Particle) :
  is_zero (p_h particle) = true ->
  fltb zero (p_m particle) = true ->
  fltb zero (p_rho particle) = true -> is_finite (p_rho particle) = true ->
  weight_of particle = S754_infinity false /\
  fleb (weight_of particle) zero = false /\
  is_finite (hi1_of particle) = false /\
  hi21_of particle = S754_infinity false /\
  (is_finite (radkernel kernel) = true ->
   forall raw,
     raw_bounds kernel pixwidthx pixwidthy xmin ymin particle = ret raw ->
     interpolate2D kernel pixwidthx pixwidthy xmin ymin pixcountx pixcounty
       (pre ++ particle :: post)
     = interpolate2D kernel pixwidthx pixwidthy xmin ymin pixcountx pixcounty
         (pre ++ post)).
Proof.
  intros Hh Hm Hrho Hfin.
  assert (weight_of particle = S754_infinity false) as Hw.
  { unfold weight_of.
    destruct (p_h particle) as [sh| | |]; try done.
    destruct (p_rho particle) as [|[]| |[] mr er]; try done.
    destruct (p_m particle) as [|[]| |[] mm em]; try done;
      by destruct sh. }
  split; [done|]. split; [by rewrite Hw|].
  split; [|split].
  - unfold hi1_of. by destruct (p_h particle) as [[]| | |].
  - unfold hi21_of, hi1_of. by destruct (p_h particle) as [[]| | |].
  - intros Hk raw Hraw. apply interpolate2D_drop. intros Hcx image _.
    assert (is_zero (radkern_of kernel particle) = true) as Hr.
    { unfold radkern_of.
      destruct (p_h particle) as [sh| | |]; try done.
      by destruct (radkernel kernel) as [| | |]. }
    destruct (zero_radius_bounds _ _ _ _ _ _ _ Hr Hraw) as [Hi Hj].
    destruct raw as [[[i0 j0] i1] j1]. simpl in Hi, Hj. subst i1 j1.
    destruct (clamp_bounds pixcountx pixcounty (i0, j0, i0, j0))
      as [[[ipixmin jpixmin] ipixmax] jpixmax] eqn:Hcl.
    assert (0 <= pixcountx) as Hn by lia.
    apply (particle_step_empty _ _ _ _ _ _ _ _ _ _ _ _ _ _ Hn Hraw Hcl).
    revert Hcl. unfold clamp_bounds.
    destruct (Z.ltb_spec i0 0), (Z.gtb_spec i0 pixcountx);
      intros [= <- <- <- <-]; lia.
Qed.

Lemma zero_smoothing_length_witness :
  weight_of Samples.zero_h = S754_infinity false /\
  interpolate2D Samples.tophat one one zero zero 4 4
    ([Samples.centre] ++ Samples.zero_h :: [])
  = interpolate2D Samples.tophat one one zero zero 4 4
      ([Samples.centre] ++ []).
Proof.
  destruct (zero_smoothing_length Samples.tophat one one zero zero 4 4
              [Samples.centre] [] Samples.zero_h)
    as (Hw & _ & _ & _ & Hdrop); [reflexivity..|].
  split; [exact Hw|]. apply (Hdrop eq_refl (2, 2, 2, 2)). reflexivity.
Defined.

(** ** Particles outside the grid *)

Lemma rint_magnitude_nonneg (m : positive) (e : Z) : 0 <= rint_magnitude m e.
Proof.
  unfold rint_magnitude. destruct (Z.leb_spec 0 e).
  - apply Z.mul_nonneg_nonneg; [lia|]. apply Z.pow_nonneg. lia.
  - assert (0 < 2 ^ (- e)) as Hd by (apply Z.pow_pos_nonneg; lia).
    pose proof (Z.div_pos (Z.pos m) (2 ^ (- e)) ltac:(lia) Hd) as Hq.
    destruct (_ ?= _); [destruct (Z.even _)|..]; lia.
Qed.

Lemma py_int_negative (x : float) (z : Z) :
  fsign x = Some true -> py_int x = ret z -> z <= 0.
Proof.
  destruct x as [[]|[]| |[] m e]; try done; intros _ [= <-]; [done|].
  simpl. destruct (Z.leb_spec 0 e).
  - assert (0 <= Z.pos m * 2 ^ e); [|lia].
    apply Z.mul_nonneg_nonneg; [lia|]. apply Z.pow_nonneg. lia.
  - assert (0 <= Z.pos m / 2 ^ (- e)); [|lia].
    apply Z.div_pos; [lia|]. apply Z.pow_pos_nonneg; lia.
Qed.

(** A pixel coordinate that is at most 0 rounds to an index that is at
    most 0. *)
Lemma rint_nonpositive (x : float) (z : Z) :
  fleb x zero = true -> py_int (np_rint x) = ret z -> z <= 0.
Proof.
  destruct x as [s|[]| |[] m e]; try done; intros _.
  - by intros [= <-].
  - unfold np_rint. destruct (Z.leb_spec 0 e) as [He|He].
    + apply py_int_negative. done.
    + pose proof (rint_magnitude_nonneg m e) as Hr.
      destruct (rint_magnitude m e) as [|r|r]; [|simpl|lia].
      * by intros [= <-].
      * apply py_int_negative. unfold binary_normalize, binary_round.
        destruct (shl_align _ _ _) as [mz ez].
        apply binary_round_aux_sign. lia.
Qed.

(** The [interpolate2D] half of the locality property: a particle whose
    support ends at or before the first column or row, in pixel units, or
    whose first index is at or beyond the pixel count, adds nothing. *)
Lemma particle_outside_grid kernel pixwidthx pixwidthy xmin ymin
    pixcountx pixcounty (pre post : list Particle) (particle : Particle)
    (i0 j0 i1 j1 : Z) :
  raw_bounds kernel pixwidthx pixwidthy xmin ymin particle
  = ret (i0, j0, i1, j1) ->
  fleb (fdiv (fsub (fadd (p_x particle) (radkern_of kernel particle)) xmin)
             pixwidthx) zero = true \/
  fleb (fdiv (fsub (fadd (p_y particle) (radkern_of kernel particle)) ymin)
             pixwidthy) zero = true \/
  pixcountx <= i0 \/ pixcounty <= j0 ->
  interpolate2D kernel pixwidthx pixwidthy xmin ymin pixcountx pixcounty
    (pre ++ particle :: post)
  = interpolate2D kernel pixwidthx pixwidthy xmin ymin pixcountx pixcounty
      (pre ++ post).
Proof.
  intros Hraw Hout. apply interpolate2D_drop. intros Hcx image _.
  assert (i1 <= 0 \/ j1 <= 0 \/ pixcountx <= i0 \/ pixcounty <= j0) as Hout'.
  { revert Hraw. unfold raw_bounds.
    destruct (py_int _) as [|a]; [done|]. simpl.
    destruct (py_int _) as [|b]; [done|]. simpl.
    destruct (py_int (np_rint (fdiv (fsub (fadd (p_x particle) _) _) _)))
      as [|c] eqn:Hc; [done|]. simpl.
    destruct (py_int (np_rint (fdiv (fsub (fadd (p_y particle) _) _) _)))
      as [|d] eqn:Hd; [done|]. simpl.
    unfold ret. intros [= -> -> -> ->].
    destruct Hout as [Hx|[Hy|Hrest]]; [| |tauto].
    - left. by apply (rint_nonpositive _ _ Hx).
    - right. left. by apply (rint_nonpositive _ _ Hy). }
  destruct (clamp_bounds pixcountx pixcounty (i0, j0, i1, j1))
    as [[[ipixmin jpixmin] ipixmax] jpixmax] eqn:Hcl.
  assert (0 <= pixcountx) as Hn by lia.
  apply (particle_step_empty _ _ _ _ _ _ _ _ _ _ _ _ _ _ Hn Hraw Hcl).
  revert Hcl. unfold clamp_bounds.
  destruct (Z.ltb_spec i0 0), (Z.gtb_spec i1 pixcountx),
    (Z.ltb_spec j0 0), (Z.gtb_spec j1 pixcounty);
    intros [= <- <- <- <-]; lia.
Qed.

(** ** Series over labelled rows *)

Lemma imap_labelled {A : Type} (f : Particle -> A) (k : nat)
    (data : list Particle) :
  imap (fun i particle => (Z.of_nat (k + i), f particle)) data
  = ser f (labelled_from k data).
Proof.
  revert k. induction data as [|particle data IH]; intros k; [done|].
  simpl. rewrite Nat.add_0_r. f_equal. rewrite <- IH.
  apply imap_ext. intros i x _. simpl. do 2 f_equal. lia.
Qed.

Lemma column_ser {A : Type} (f : Particle -> A) (data : list Particle) :
  column f data = ser f (labelled_from 0 data).
Proof. apply (imap_labelled f 0). Qed.

Lemma smap_ser {A B : Type} (g : A -> B) (f : Particle -> A)
    (rows : list (Z * Particle)) :
  smap g (ser f rows) = ser (fun particle => g (f particle)) rows.
Proof. unfold smap, ser. by rewrite <- list_fmap_compose. Qed.

Lemma smap2_ser {A B C : Type} (g : A -> B -> C)
    (f1 : Particle -> A) (f2 : Particle -> B) (rows : list (Z * Particle)) :
  smap2 g (ser f1 rows) (ser f2 rows)
  = ser (fun particle => g (f1 particle) (f2 particle)) rows.
Proof. induction rows as [|[l p] rows IH]; [done|]. simpl. by f_equal. Qed.

Lemma smask_ser {A : Type} (f : Particle -> A) (b : Particle -> bool)
    (rows : list (Z * Particle)) :
  smask (ser f rows) (ser b rows)
  = ser f (filter (fun lp => b lp.2 = true) rows).
Proof.
  induction rows as [|[l p] rows IH]; [done|].
  unfold smask in *. simpl. rewrite filter_cons. simpl.
  destruct (b p); simpl; [f_equal|]; apply IH.
Qed.

Lemma filter_all {A : Type} (P : A -> Prop) `{forall x, Decision (P x)}
    (l : list A) :
  Forall P l -> filter P l = l.
Proof.
  induction 1 as [|x l Hx Hl IH]; [done|].
  rewrite filter_cons, decide_True by done. by f_equal.
Qed.

Lemma length_labelled_from (k : nat) (data : list Particle) :
  length (labelled_from k data) = length data.
Proof.
  revert k. induction data as [|particle data IH]; intros k; simpl;
    [done | by rewrite IH].
Qed.

Lemma labelled_from_label (k : nat) (data : list Particle) (lp : Z * Particle) :
  lp ∈ labelled_from k data -> Z.of_nat k <= lp.1.
Proof.
  revert k. induction data as [|particle data IH]; intros k Hin.
  - by apply elem_of_nil in Hin.
  - apply elem_of_cons in Hin as [->|Hin]; [simpl; lia|].
    apply IH in Hin. lia.
Qed.

Lemma NoDup_labelled_from (k : nat) (data : list Particle) :
  NoDup (labelled_from k data).*1.
Proof.
  revert k. induction data as [|particle data IH]; intros k; simpl.
  - constructor.
  - apply NoDup_cons. split; [|apply IH].
    intros (lp & Heq & Hin%labelled_from_label)%list_elem_of_fmap.
    simpl in Heq. lia.
Qed.

Lemma NoDup_fst_filter {A : Type} (P : Z * A -> Prop)
    `{forall x, Decision (P x)} (rows : list (Z * A)) :
  NoDup rows.*1 -> NoDup (filter P rows).*1.
Proof.
  induction rows as [|lp rows IH]; [done|]. simpl.
  intros [Hnotin Hnd]%NoDup_cons. rewrite filter_cons.
  destruct (decide (P lp)); [|by apply IH]. simpl.
  apply NoDup_cons. split; [|by apply IH].
  intros (lp' & Heq & Hin%list_elem_of_filter)%list_elem_of_fmap.
  apply Hnotin. rewrite Heq. apply list_elem_of_fmap_2. tauto.
Qed.

Lemma snd_filter_labelled_from (P : Particle -> Prop)
    `{forall x, Decision (P x)} (k : nat) (data : list Particle) :
  (filter (fun lp : Z * Particle => P lp.2) (labelled_from k data)).*2
  = filter P data.
Proof.
  revert k. induction data as [|particle data IH]; intros k; [done|].
  simpl. rewrite !filter_cons. simpl.
  destruct (decide (P particle)); simpl; by rewrite IH.
Qed.

(** A label of the rows finds the value of its row. *)
Lemma sloc_ser {A : Type} (f : Particle -> A) (rows : list (Z * Particle))
    (i : Z) (particle : Particle) :
  NoDup rows.*1 -> (i, particle) ∈ rows ->
  sloc (ser f rows) i = ret (f particle).
Proof.
  induction rows as [|[l p] rows IH]; intros Hnd Hin.
  - by apply elem_of_nil in Hin.
  - simpl in *. apply NoDup_cons in Hnd as [Hnotin Hnd].
    apply elem_of_cons in Hin as [[= <- <-]|Hin].
    + by rewrite Z.eqb_refl.
    + destruct (Z.eqb_spec l i) as [->|_]; [|by apply IH].
      destruct Hnotin. by apply (list_elem_of_fmap_2 fst _ (i, particle)).
Qed.

(** On a table with its own labels, the positions of the true entries of a
    mask are the labels of the rows it selects. *)
Lemma nonzero_ser_from (b : Particle -> bool) (k : nat)
    (data : list Particle) :
  omap (fun kb : nat * (Z * bool) =>
          if kb.2.2 then Some (Z.of_nat kb.1) else None)
       (zip (seq k (length data)) (ser b (labelled_from k data)))
  = (filter (fun lp => b lp.2 = true) (labelled_from k data)).*1.
Proof.
  revert k. induction data as [|particle data IH]; intros k; [done|].
  simpl. rewrite filter_cons. simpl.
  destruct (b particle); simpl; [f_equal|]; apply IH.
Qed.

Lemma nonzero_ser (b : Particle -> bool) (data : list Particle) :
  nonzero (ser b (labelled_from 0 data))
  = (filter (fun lp => b lp.2 = true) (labelled_from 0 data)).*1.
Proof.
  unfold nonzero. rewrite <- (nonzero_ser_from b 0 data).
  unfold ser at 1. by rewrite length_fmap, (length_labelled_from 0 data).
Qed.

(** ** The cross-section loop on rows found by their label *)

Lemma zip_with_fmap_same {A B C D : Type} (g : B -> C -> D)
    (f1 : A -> B) (f2 : A -> C) (l : list A) :
  zip_with g (f1 <$> l) (f2 <$> l) = (fun x => g (f1 x) (f2 x)) <$> l.
Proof. induction l as [|x l IH]; [done|]. simpl. by f_equal. Qed.

(** When the index [i] of the loop is the label of the row [particle], in
    the table and in the series of pixel bounds, the body of the loop is the
    accumulation of that row. *)
Lemma cross_step_row kernel x1 y1 x2 pixcount gradient yint pixwidth
    xpixwidth aa yint2 (data : list Particle)
    (survivors : list (Z * Particle)) (output : list float)
    (i : Z) (particle : Particle) :
  NoDup survivors.*1 ->
  (i, particle) ∈ survivors -> (i, particle) ∈ labelled_from 0 data ->
  cross_step kernel x1 data gradient yint xpixwidth
    (cross_term data)
    (ser (ipixmin_of kernel x1 y1 x2 pixcount gradient yint pixwidth aa yint2)
         survivors)
    (ser (ipixmax_of kernel x1 y1 x2 pixcount gradient yint pixwidth aa yint2)
         survivors)
    output i
  = row_contrib kernel x1 y1 x2 pixcount gradient yint pixwidth xpixwidth
      aa yint2 output particle.
Proof.
  intros Hnd HinS HinL.
  pose proof (NoDup_labelled_from 0 data) as HndL.
  unfold cross_step, row_contrib, cross_term.
  rewrite !column_ser.
  rewrite !(sloc_ser _ survivors i particle) by done.
  rewrite !(sloc_ser _ (labelled_from 0 data) i particle) by done.
  simpl.
  destruct (py_int (ipixmin_of _ _ _ _ _ _ _ _ _ _ _)) as [e|lo]; [done|].
  simpl.
  destruct (py_int (ipixmax_of _ _ _ _ _ _ _ _ _ _ _)) as [e|hi]; [done|].
  simpl. f_equal.
  rewrite <- !list_fmap_compose, zip_with_fmap_same, <- !list_fmap_compose.
  done.
Qed.

Lemma filter_weight_ser (data : list Particle) :
  filter_weight data = ser keeps_weight (labelled_from 0 data).
Proof.
  unfold filter_weight, cross_term. by rewrite !column_ser, smap2_ser.
Qed.

Lemma Forall_labelled_from (P : Particle -> Prop) (k : nat)
    (data : list Particle) :
  Forall P data -> Forall (fun lp => P lp.2) (labelled_from k data).
Proof.
  intros Hall. revert k.
  induction Hall as [|particle data Hp Hall IH]; intros k; simpl;
    constructor; [done | apply IH].
Qed.

Lemma foldM_survivors kernel x1 y1 x2 pixcount gradient yint pixwidth
    xpixwidth aa yint2 (k : nat) (data : list Particle)
    (output : list float) :
  Forall (fun particle => keeps_weight particle = true) data ->
  foldM (fun out (lp : Z * Particle) =>
           row_contrib kernel x1 y1 x2 pixcount gradient yint pixwidth
             xpixwidth aa yint2 out lp.2)
        (filter (fun lp : Z * Particle =>
                   keeps_det kernel gradient yint aa yint2 lp.2 = true)
                (labelled_from k data))
        output
  = foldM (row_step kernel x1 y1 x2 pixcount gradient yint pixwidth
             xpixwidth aa yint2)
          data output.
Proof.
  intros Hall. revert k output.
  induction Hall as [|particle data Hp Hall IH]; intros k output; [done|].
  simpl. rewrite filter_cons. simpl. unfold row_step at 1. rewrite Hp. simpl.
  destruct (keeps_det kernel gradient yint aa yint2 particle) eqn:Hd.
  - rewrite decide_True by done. simpl.
    destruct (row_contrib _ _ _ _ _ _ _ _ _ _ _ output particle); simpl;
      [done | apply IH].
  - rewrite decide_False by done. simpl. apply IH.
Qed.

(** The series computed by [interpolate2DCross], one source line at a time, as
    series of the row-wise values of the specification. *)
Section SeriesOfRows.

Variable kernel : BaseKernel.
Variables x1 y1 x2 : float.
Variable pixcount : Z.
Variables gradient yint pixwidth xpixwidth aa yint2 : float.
Variable rows : list (Z * Particle).

Lemma bb_ser :
  smap2 (fun y x =>
           fsub (fmul (fmul two gradient) (fsub yint y)) (fmul two x))
        (ser p_y rows) (ser p_x rows)
  = ser (bb_of gradient yint) rows.
Proof. by rewrite smap2_ser. Qed.

Lemma cc_ser :
  smap2 (fun (xy : float * float) h =>
           fsub (fadd (fsub (fadd (fsquare xy.1) (fsquare xy.2))
                            (fmul (fmul two yint) xy.2))
                      yint2)
                (fsquare (fmul (radkernel kernel) h)))
        (smap2 pair (ser p_x rows) (ser p_y rows)) (ser p_h rows)
  = ser (cc_of kernel yint yint2) rows.
Proof. by rewrite !smap2_ser. Qed.

Lemma det_ser :
  smap2 (fun b c => fsub (fsquare b) (fmul (fmul four aa) c))
        (ser (bb_of gradient yint) rows) (ser (cc_of kernel yint yint2) rows)
  = ser (det_of kernel gradient yint aa yint2) rows.
Proof. by rewrite smap2_ser. Qed.

Lemma filter_det_ser :
  smap (fun d => fgeb d zero) (ser (det_of kernel gradient yint aa yint2) rows)
  = ser (keeps_det kernel gradient yint aa yint2) rows.
Proof. by rewrite smap_ser. Qed.

#[local] Abbreviation surviving' :=
  (surviving kernel gradient yint aa yint2 rows).

Lemma sqrt_det_ser :
  smap fsqrt
       (smask (ser (det_of kernel gradient yint aa yint2) rows)
              (ser (keeps_det kernel gradient yint aa yint2) rows))
  = ser (fun particle => fsqrt (det_of kernel gradient yint aa yint2 particle))
        surviving'.
Proof. by rewrite smask_ser, smap_ser. Qed.

Lemma xstart_ser :
  smap (pd_clip x1 x2)
       (smap2 (fun b d => fdiv (fsub (fopp b) d) (fmul two aa))
              (smask (ser (bb_of gradient yint) rows)
                     (ser (keeps_det kernel gradient yint aa yint2) rows))
              (ser (fun particle =>
                      fsqrt (det_of kernel gradient yint aa yint2 particle))
                   surviving'))
  = ser (xstart_of kernel x1 x2 gradient yint aa yint2) surviving'.
Proof. by rewrite smask_ser, smap2_ser, smap_ser. Qed.

Lemma xend_ser :
  smap (pd_clip x1 x2)
       (smap2 (fun b d => fdiv (fadd (fopp b) d) (fmul two aa))
              (smask (ser (bb_of gradient yint) rows)
                     (ser (keeps_det kernel gradient yint aa yint2) rows))
              (ser (fun particle =>
                      fsqrt (det_of kernel gradient yint aa yint2 particle))
                   surviving'))
  = ser (xend_of kernel x1 x2 gradient yint aa yint2) surviving'.
Proof. by rewrite smask_ser, smap2_ser, smap_ser. Qed.

Lemma pix_dist_ser (f : Particle -> float) (l : list (Z * Particle)) :
  smap (fun r => pd_clip zero (of_Z pixcount) (np_rint (fdiv r pixwidth)))
       (smap (fun xv =>
                fsqrt (fadd (fsquare (fsub xv x1))
                            (fsquare (fsub (fadd (fmul gradient xv) yint)
                                           y1))))
             (ser f l))
  = ser (fun particle =>
           pix_of pixcount pixwidth (dist_of x1 y1 gradient yint (f particle)))
        l.
Proof. by rewrite !smap_ser. Qed.

End SeriesOfRows.

(** On a table from which the weight filter drops no row,
    [interpolate2DCross] is the cross-section of the specification: every
    row that passes the discriminant filter adds, to each pixel of its own
    clamped range, its own [term] times the kernel at its own distance. *)
Lemma interpolate2DCross_is_rows kernel x1 y1 x2 y2 pixcount
    (data : list Particle) :
  Forall (fun particle => keeps_weight particle = true) data ->
  interpolate2DCross kernel x1 y1 x2 y2 pixcount data
  = interpolate2DCross_rows kernel x1 y1 x2 y2 pixcount data.
Proof.
  intros Hall. unfold interpolate2DCross, interpolate2DCross_rows.
  destruct (np_isclose y2 y1 && np_isclose x2 x1); [done|].
  destruct (pixcount <=? 0); [done|].
  destruct (negb (ndims kernel =? 2)); [done|].
  destruct (np_zeros pixcount) as [e|output]; [done|]. cbn [bind].
  destruct (if negb (np_isclose x2 x1) then _ else _) as [e|gradient];
    [done|]. cbn [bind].
  destruct (py_pow2 (fsub x2 x1)) as [e|xx]; [done|]. cbn [bind].
  destruct (py_pow2 (fsub y2 y1)) as [e|yy]; [done|]. cbn [bind].
  destruct (py_div (fsub x2 x1) (of_Z pixcount)) as [e|xpixwidth]; [done|].
  cbn [bind].
  destruct (py_pow2 gradient) as [e|gg]; [done|]. cbn [bind].
  destruct (py_pow2 (fsub y2 (fmul gradient x2))) as [e|yint2]; [done|].
  cbn [bind]. cbv zeta.
  rewrite filter_weight_ser, !column_ser, !smask_ser.
  rewrite (filter_all _ (labelled_from 0 data))
    by (by apply (Forall_labelled_from
                    (fun particle => keeps_weight particle = true))).
  rewrite !bb_ser, !cc_ser, !det_ser, !filter_det_ser, !sqrt_det_ser,
    xstart_ser, xend_ser, !pix_dist_ser.
  rewrite nonzero_ser, foldM_fmap.
  rewrite <- (foldM_survivors kernel x1 y1 x2 pixcount gradient
                (fsub y2 (fmul gradient x2))
                (fdiv (fsqrt (fadd xx yy)) (of_Z pixcount))
                xpixwidth (fadd one gg) yint2 0 data output Hall).
  apply foldM_ext_in. intros out [i particle] Hin.
  apply (cross_step_row kernel x1 y1 x2 pixcount gradient
           (fsub y2 (fmul gradient x2))
           (fdiv (fsqrt (fadd xx yy)) (of_Z pixcount))
           xpixwidth (fadd one gg) yint2).
  - apply NoDup_fst_filter, NoDup_labelled_from.
  - exact Hin.
  - by apply list_elem_of_filter in Hin as [_ Hin].
Qed.

(** ** The defect: positions used as labels *)

Lemma labels_above_weaken (k : nat) (rows : list (Z * Particle)) :
  labels_above (S k) rows -> labels_above k rows.
Proof.
  revert k. induction rows as [|lp rows IH]; intros k; [done|].
  simpl. intros [Hl Hrows]. split; [lia | by apply IH].
Qed.

Lemma labels_above_labelled_from (k : nat) (data : list Particle) :
  labels_above k (labelled_from (S k) data).
Proof.
  revert k. induction data as [|particle data IH]; intros k; [done|].
  simpl. split; [lia | apply IH].
Qed.

Lemma labels_above_filter (P : Z * Particle -> Prop)
    `{forall x, Decision (P x)} (k : nat) (rows : list (Z * Particle)) :
  labels_above k rows -> labels_above k (filter P rows).
Proof.
  revert k. induction rows as [|lp rows IH]; intros k; [done|].
  simpl. intros [Hl Hrows]. rewrite filter_cons.
  destruct (decide (P lp)).
  - simpl. split; [done | by apply IH].
  - by apply labels_above_weaken, IH.
Qed.

Lemma labels_above_elem (k : nat) (rows : list (Z * Particle))
    (lp : Z * Particle) :
  labels_above k rows -> lp ∈ rows -> Z.of_nat k < lp.1.
Proof.
  revert k. induction rows as [|lp' rows IH]; intros k Habove Hin.
  - by apply elem_of_nil in Hin.
  - destruct Habove as [Hl Hrows].
    apply elem_of_cons in Hin as [->|Hin]; [done|].
    apply (IH (S k)) in Hin; [lia|done].
Qed.

(** When every label exceeds the position of its row, the first position of
    a true entry of the mask is the label of no selected row. *)
Lemma first_position_is_no_label (b : Particle -> bool) (k : nat)
    (rows : list (Z * Particle)) :
  labels_above k rows ->
  Exists (fun lp => b lp.2 = true) rows ->
  exists i rest,
    omap (fun kb : nat * (Z * bool) =>
            if kb.2.2 then Some (Z.of_nat kb.1) else None)
         (zip (seq k (length rows)) (ser b rows)) = i :: rest /\
    i ∉ (filter (fun lp : Z * Particle => b lp.2 = true) rows).*1.
Proof.
  revert k. induction rows as [|[l p] rows IH]; intros k Habove Hex.
  - by apply Exists_nil in Hex.
  - destruct Habove as [Hl Hrows]. simpl in Hl. simpl.
    rewrite filter_cons. simpl. destruct (b p) eqn:Hb; simpl.
    + eexists _, _. split; [done|].
      intros [Heq|Hin]%elem_of_cons; [simpl in Heq; lia|].
      apply list_elem_of_fmap in Hin as (lp & Heq & Hin).
      apply list_elem_of_filter in Hin as [_ Hin].
      apply (labels_above_elem (S k)) in Hin; [lia|done].
    + apply Exists_cons in Hex as [Hp|Hex]; [simpl in Hp; congruence|].
      apply (IH (S k) Hrows Hex).
Qed.

Lemma sloc_missing {A : Type} (s : Series A) (i : Z) :
  i ∉ s.*1 -> sloc s i = raise (KeyError i).
Proof.
  induction s as [|[l v] s IH]; [done|]. simpl.
  intros Hnotin. destruct (Z.eqb_spec l i) as [->|Hne].
  - destruct Hnotin. apply list_elem_of_here.
  - apply IH. intros Hin. apply Hnotin. by apply list_elem_of_further.
Qed.

Lemma length_ser {A : Type} (f : Particle -> A) (rows : list (Z * Particle)) :
  length (ser f rows) = length rows.
Proof. apply length_fmap. Qed.

Lemma fst_ser {A : Type} (f : Particle -> A) (rows : list (Z * Particle)) :
  (ser f rows).*1 = rows.*1.
Proof. unfold ser. rewrite <- list_fmap_compose. done. Qed.

(** Whenever the weight filter drops the first row of the table and some
    later row passes both filters, [interpolate2DCross] raises [KeyError]:
    the first position the loop visits is the label of no surviving row. *)
Lemma weight_dropped_first_row_raises kernel x1 y1 x2 y2 pixcount
    (line : Line) (first : Particle) (data : list Particle) :
  np_isclose y2 y1 && np_isclose x2 x1 = false ->
  0 < pixcount -> ndims kernel = 2 ->
  line_of x1 y1 x2 y2 pixcount = ret line ->
  keeps_weight first = false ->
  Exists (fun particle =>
            keeps_weight particle = true /\
            keeps_det kernel (l_gradient line) (l_yint line) (l_aa line)
              (l_yint2 line) particle = true) data ->
  exists i,
    interpolate2DCross kernel x1 y1 x2 y2 pixcount (first :: data)
    = raise (KeyError i).
Proof.
  intros Hclose Hn Hd Hline Hfirst Hex.
  unfold interpolate2DCross. rewrite Hclose, Hd.
  destruct (Z.leb_spec pixcount 0); [lia|]. simpl negb. cbv iota.
  unfold np_zeros. destruct (Z.ltb_spec pixcount 0); [lia|]. cbn [bind ret].
  revert Hline. unfold line_of.
  destruct (if negb (np_isclose x2 x1) then _ else _) as [e|gradient];
    [done|]. cbn [bind].
  destruct (py_pow2 (fsub x2 x1)) as [e|xx]; [done|]. cbn [bind].
  destruct (py_pow2 (fsub y2 y1)) as [e|yy]; [done|]. cbn [bind].
  destruct (py_div (fsub x2 x1) (of_Z pixcount)) as [e|xpixwidth]; [done|].
  cbn [bind].
  destruct (py_pow2 gradient) as [e|gg]; [done|]. cbn [bind].
  destruct (py_pow2 (fsub y2 (fmul gradient x2))) as [e|yint2]; [done|].
  cbn [bind]. intros [= <-]. simpl in Hex. cbv zeta.
  rewrite filter_weight_ser, !column_ser, !smask_ser.
  set (rows := filter (fun lp : Z * Particle => keeps_weight lp.2 = true)
                 (labelled_from 0 (first :: data))).
  rewrite !bb_ser, !cc_ser, !det_ser, !filter_det_ser, !sqrt_det_ser,
    xstart_ser, xend_ser, !pix_dist_ser.
  assert (rows = filter (fun lp : Z * Particle => keeps_weight lp.2 = true)
                   (labelled_from 1 data)) as Hrows.
  { subst rows. simpl. rewrite filter_cons. simpl.
    by rewrite decide_False by (by rewrite Hfirst). }
  assert (labels_above 0 rows) as Habove.
  { rewrite Hrows. apply labels_above_filter, labels_above_labelled_from. }
  destruct (first_position_is_no_label
              (keeps_det kernel gradient (fsub y2 (fmul gradient x2))
                 (fadd one gg) yint2) 0 rows Habove)
    as (i & rest & Hnz & Hnotin).
  { rewrite Hrows. clear -Hex. generalize 1%nat.
    induction Hex as [particle data [Hw Hk]|particle data Hex IH]; intros k;
      simpl; rewrite filter_cons; simpl.
    - rewrite decide_True by done. by apply Exists_cons_hd.
    - destruct (decide _); [apply Exists_cons_tl|]; apply IH. }
  exists i. unfold nonzero. rewrite length_ser, Hnz. simpl. unfold cross_step at 1.
  rewrite sloc_missing; [done|]. by rewrite fst_ser.
Qed.

(** ** Labels and positions in the cross-section *)

(** C1 fails on the code: along the diagonal from (0, 0) to (4, 4), the
    particle [centre] survives both filters and on its own adds 4 to the
    pixels 3 and 4; placed after a particle that the weight filter drops, it
    is reached at position 0 of the filtered rows, the position is looked up
    as a label, and the call raises [KeyError] instead of adding anything.
    The row-wise cross-section of the specification returns the profile of
    [centre] on the same table. *)
Theorem cross_section_position_used_as_label :
  interpolate2DCross Samples.tophat zero zero four four 8 [Samples.centre]
  = ret [zero; zero; zero; four; four; zero; zero; zero] /\
  filter_weight [Samples.massless; Samples.centre] = [(0, false); (1, true)] /\
  interpolate2DCross Samples.tophat zero zero four four 8
    [Samples.massless; Samples.centre]
  = raise (KeyError 0) /\
  interpolate2DCross_rows Samples.tophat zero zero four four 8
    [Samples.massless; Samples.centre]
  = ret [zero; zero; zero; four; four; zero; zero; zero].
Proof. repeat split. Qed.

(** C3 fails on the code, by the same defect: the support of [far_massless]
    does not meet the diagonal, yet the call with it raises [KeyError] while
    the call without it returns the profile of [centre]; the same far
    particle with a positive mass is dropped without harm, and so is
    [far_massless] by the row-wise cross-section of the specification. *)
Theorem cross_section_far_particle_changes_result :
  interpolate2DCross Samples.tophat zero zero four four 8
    [Samples.far_massless; Samples.centre]
  = raise (KeyError 0) /\
  interpolate2DCross Samples.tophat zero zero four four 8 [Samples.centre]
  = ret [zero; zero; zero; four; four; zero; zero; zero] /\
  interpolate2DCross Samples.tophat zero zero four four 8
    [Samples.far; Samples.centre]
  = ret [zero; zero; zero; four; four; zero; zero; zero] /\
  interpolate2DCross_rows Samples.tophat zero zero four four 8
    [Samples.far_massless; Samples.centre]
  = ret [zero; zero; zero; four; four; zero; zero; zero].
Proof. repeat split. Qed.

(** ** Slices of a profile *)

Lemma lookup_py_range (a b : Z) (i : nat) :
  (Z.of_nat i < b - a) -> py_range a b !! i = Some (a + Z.of_nat i).
Proof.
  intros Hi. unfold py_range. rewrite lookup_seqZ. split; [lia|done].
Qed.

Lemma length_py_range (a b : Z) : length (py_range a b) = Z.to_nat (b - a).
Proof. unfold py_range. apply length_seqZ. Qed.

(** [output[lo:hi] += f(lo), ..., f(hi - 1)] with [lo >= 0]: when the
    statement does not raise, the pixels of [lo, hi) and no others have
    received their value. *)
Lemma slice_iadd_cell (f : Z -> float) (output output' : list float)
    (lo hi : Z) :
  0 <= lo ->
  slice_iadd output lo hi (f <$> py_range lo hi) = ret output' ->
  length output' = length output /\
  forall k, 0 <= k < Z.of_nat (length output) ->
    cell output' k
    = if (lo <=? k) && (k <? hi) then fadd (cell output k) (f k)
      else cell output k.
Proof.
  intros Hlo. unfold slice_iadd.
  set (n := Z.of_nat (length output)).
  assert (norm_slice n lo = Z.min lo n) as ->.
  { unfold norm_slice. destruct (Z.ltb_spec lo 0); lia. }
  assert (0 <= norm_slice n hi <= n) as Hhi.
  { unfold norm_slice. destruct (Z.ltb_spec hi 0); lia. }
  set (start := Z.to_nat (Z.min lo n)).
  set (len := Z.to_nat (norm_slice n hi - Z.min lo n)).
  destruct (match f <$> py_range lo hi with
            | [v] => Some (replicate len v)
            | _ => if decide (length (f <$> py_range lo hi) = len)
                   then Some (f <$> py_range lo hi) else None
            end) as [vs|] eqn:Hvs; [|done].
  intros [= <-].
  assert (length vs = len /\
          forall i, (i < len)%nat -> lo < n ->
            vs !! i = Some (f (lo + Z.of_nat i)) /\ lo + Z.of_nat i < hi)
    as [Hlen Hget].
  { destruct (decide (hi - lo = 1)) as [Hone|Hone].
    - assert (py_range lo hi = [lo]) as Hr.
      { unfold py_range. by rewrite Hone. }
      rewrite Hr in Hvs. simpl in Hvs. injection Hvs as <-.
      split; [apply length_replicate|]. intros i Hi Hn.
      assert (len = 1%nat) as Hl1.
      { subst len. unfold norm_slice in *.
        destruct (Z.ltb_spec hi 0); lia. }
      rewrite Hl1 in Hi |- *. destruct i as [|i]; [|lia].
      simpl. rewrite Z.add_0_r. split; [done|lia].
    - assert (length (f <$> py_range lo hi) = len /\ vs = f <$> py_range lo hi)
        as [Hl ->].
      { destruct (f <$> py_range lo hi) as [|v [|v' l]] eqn:Hr.
        - by destruct (decide _); [injection Hvs as <-|].
        - exfalso. apply (f_equal length) in Hr.
          rewrite length_fmap, length_py_range in Hr. simpl in Hr. lia.
        - by destruct (decide _); [injection Hvs as <-|]. }
      split; [done|]. intros i Hi Hn.
      rewrite length_fmap, length_py_range in Hl.
      rewrite list_lookup_fmap, lookup_py_range by lia. split; [done|lia]. }
  split.
  - rewrite !length_app, length_zip_with, !length_take, !length_drop. lia.
  - intros k Hk. unfold cell.
    destruct (decide (Z.to_nat k < start)%nat) as [Hlt|Hge].
    + rewrite lookup_app_l by (rewrite length_take; lia).
      rewrite lookup_take_lt by done.
      destruct (Z.leb_spec lo k); [lia|]. done.
    + rewrite lookup_app_r by (rewrite length_take; lia).
      rewrite length_take.
      replace (start `min` length output)%nat with start by lia.
      destruct (decide (Z.to_nat k - start < len)%nat) as [Hin|Hout].
      * rewrite lookup_app_l
          by (rewrite length_zip_with, length_take, length_drop; lia).
        assert (lo < n) as Hn by lia.
        destruct (Hget (Z.to_nat k - start)%nat Hin Hn) as [Hv Hb].
        rewrite lookup_zip_with, lookup_take_lt, lookup_drop by done.
        replace (start + (Z.to_nat k - start))%nat with (Z.to_nat k) by lia.
        destruct (lookup_lt_is_Some_2 output (Z.to_nat k)) as [old Hold];
          [lia|].
        rewrite Hold, Hv. simpl.
        replace (lo + Z.of_nat (Z.to_nat k - start)) with k in * by lia.
        destruct (Z.leb_spec lo k), (Z.ltb_spec k hi); (done || lia).
      * rewrite lookup_app_r
          by (rewrite length_zip_with, length_take, length_drop; lia).
        rewrite length_zip_with, length_take, length_drop, lookup_drop.
        replace (start + len + (Z.to_nat k - start
                   - (len `min` (length output - start)) `min` length vs))%nat
          with (Z.to_nat k) by lia.
        destruct (Z.leb_spec lo k), (Z.ltb_spec k hi); simpl; try done.
        exfalso. subst len start. unfold norm_slice in *.
        destruct (Z.ltb_spec hi 0); lia.
Qed.

Lemma slice_iadd_raises (out1 out2 : list float) (a b : Z)
    (vals : list float) (e : PyError) :
  length out1 = length out2 ->
  slice_iadd out1 a b vals = inl e -> slice_iadd out2 a b vals = inl e.
Proof.
  intros Hlen. unfold slice_iadd. rewrite Hlen.
  by destruct (match vals with [v] => _ | _ => _ end).
Qed.

(** ** Pixel bounds of the cross-section are not negative *)

Lemma of_Z_sign (z : Z) : 0 < z -> fsign (of_Z z) = Some false.
Proof.
  destruct z as [|p|p]; try lia. intros _.
  unfold of_Z, binary_normalize, binary_round.
  destruct (shl_align _ _ _) as [mz ez].
  apply binary_round_aux_sign. lia.
Qed.

Lemma pd_clip_not_negative (upper v : float) :
  fsign upper = Some false -> not_negative (pd_clip zero upper v) = true.
Proof.
  destruct upper as [[]|[]| |[] mu eu]; try done; intros _;
    destruct v as [[]|[]| |[] mv ev]; try done;
    unfold pd_clip; simpl; repeat case_match; done.
Qed.

Lemma py_int_not_negative (x : float) (z : Z) :
  not_negative x = true -> py_int x = ret z -> 0 <= z.
Proof.
  destruct x as [s|[]| |[] m e]; try done; intros _ [= <-]; [done|].
  simpl. destruct (Z.leb_spec 0 e).
  - apply Z.mul_nonneg_nonneg; [lia|]. apply Z.pow_nonneg. lia.
  - apply Z.div_pos; [lia|]. apply Z.pow_pos_nonneg; lia.
Qed.

Lemma pix_of_nonneg (pixcount : Z) (pixwidth r : float) (z : Z) :
  0 < pixcount -> py_int (pix_of pixcount pixwidth r) = ret z -> 0 <= z.
Proof.
  intros Hn. apply py_int_not_negative, pd_clip_not_negative.
  by apply of_Z_sign.
Qed.

(** ** The order of the particles *)


(** When a call of [interpolate2D] returns an image, the call on any
    permutation of the particles returns one too, and every pixel of either
    image is the floating-point sum, from 0 and in the order of the
    particles, of the contributions to that pixel, which are the same up to
    their order. *)
Lemma interpolate2D_permutation_pixels kernel pixwidthx pixwidthy xmin ymin
    pixcountx pixcounty (data data' : list Particle) image :
  data ≡ₚ data' ->
  interpolate2D kernel pixwidthx pixwidthy xmin ymin pixcountx pixcounty data
  = ret image ->
  exists image',
    interpolate2D kernel pixwidthx pixwidthy xmin ymin pixcountx pixcounty
      data' = ret image' /\
    forall j i, 0 <= j -> 0 <= i ->
      pixel image j i
      = foldl fadd zero
          (contributions kernel pixwidthx pixwidthy xmin ymin
             pixcountx pixcounty data j i) /\
      pixel image' j i
      = foldl fadd zero
          (contributions kernel pixwidthx pixwidthy xmin ymin
             pixcountx pixcounty data' j i) /\
      contributions kernel pixwidthx pixwidthy xmin ymin
        pixcountx pixcounty data j i
      ≡ₚ contributions kernel pixwidthx pixwidthy xmin ymin
           pixcountx pixcounty data' j i.
Proof.
  intros Hperm Hret.
  assert (fleb pixwidthx zero = false /\ fleb pixwidthy zero = false /\
          0 < pixcountx /\ 0 < pixcounty /\ ndims kernel = 2)
    as (Hx & Hy & Hcx & Hcy & Hd).
  { revert Hret. unfold interpolate2D.
    destruct (fleb pixwidthx zero); [done|].
    destruct (fleb pixwidthy zero); [done|].
    destruct (Z.leb_spec pixcountx 0); [done|].
    destruct (Z.leb_spec pixcounty 0); [done|].
    destruct (Z.eqb_spec (ndims kernel) 2); done. }
  rewrite interpolate2D_validated in Hret |- * by done.
  pose proof (foldM_particle_step_spec kernel pixwidthx pixwidthy
                xmin ymin pixcountx pixcounty data _
                ltac:(lia) (shape_replicate pixcounty pixcountx)) as Hspec.
  pose proof (foldM_particle_step_spec kernel pixwidthx pixwidthy
                xmin ymin pixcountx pixcounty data' _
                ltac:(lia) (shape_replicate pixcounty pixcountx)) as Hspec'.
  rewrite Hret in Hspec. destruct Hspec as (Hall & _ & Hpix).
  destruct (foldM _ data' _) as [e|image'].
  - exfalso. destruct Hspec' as (particle & Hin & Hw & Hraw).
    rewrite <- Hperm in Hin.
    rewrite Forall_forall in Hall. specialize (Hall particle Hin).
    unfold converts in Hall. by rewrite Hw, Hraw in Hall.
  - destruct Hspec' as (_ & _ & Hpix'). exists image'. split; [done|].
    intros j i Hj Hi. rewrite Hpix, Hpix' by done.
    rewrite !pixel_replicate. split; [done|]. split; [done|].
    unfold contributions. by rewrite Hperm.
Qed.

(** ** The row-wise cross-section, pixel by pixel *)

Section LineStep.

Variable kernel : BaseKernel.
Variables x1 y1 x2 : float.
Variable pixcount : Z.
Variable line : Line.

#[local] Abbreviation line_step' := (line_step kernel x1 y1 x2 pixcount line).
#[local] Abbreviation cross_contribution' :=
  (cross_contribution kernel x1 y1 x2 pixcount line).
#[local] Abbreviation cross_contributions' :=
  (cross_contributions kernel x1 y1 x2 pixcount line).

(** A step that raises does so whatever the profile holds. *)
Lemma line_step_raises (out1 out2 : list float) (particle : Particle)
    (e : PyError) :
  length out1 = length out2 ->
  line_step' out1 particle = inl e -> line_step' out2 particle = inl e.
Proof.
  intros Hlen. unfold line_step, row_step, row_contrib.
  destruct (_ && _); [|done].
  destruct (py_int _) as [|lo]; [done|]. simpl.
  destruct (py_int _) as [|hi]; [done|]. simpl.
  by apply slice_iadd_raises.
Qed.

(** A step that returns has added the contribution of its particle to every
    pixel, and kept the length of the profile. *)
Lemma line_step_cell (output output' : list float) (particle : Particle) :
  0 < pixcount ->
  line_step' output particle = ret output' ->
  length output' = length output /\
  forall k, 0 <= k < Z.of_nat (length output) ->
    cell output' k
    = match cross_contribution' particle k with
      | Some v => fadd (cell output k) v
      | None => cell output k
      end.
Proof.
  intros Hn. unfold line_step, row_step, row_contrib, cross_contribution.
  destruct (_ && _); [|by intros [= <-]].
  unfold ipixmin_of.
  destruct (py_int (pix_of _ _ _)) as [|lo] eqn:Hlo; [done|]. simpl.
  apply pix_of_nonneg in Hlo; [|done].
  destruct (py_int _) as [|hi]; [done|]. simpl.
  intros Hslice. apply slice_iadd_cell in Hslice as [Hlen Hcell]; [|done].
  split; [done|]. intros k Hk. rewrite Hcell by done.
  by destruct (_ && _).
Qed.

(** The loop over the rows: it returns exactly when every step does, and
    then every pixel is its initial value plus the contributions of the
    particles, added one after the other in the order of the particles. *)
Lemma foldM_line_step_spec (data : list Particle) (output : list float) :
  0 < pixcount ->
  match foldM line_step' data output with
  | inl e =>
      exists particle,
        particle ∈ data /\
        forall out, length out = length output ->
          line_step' out particle = inl e
  | inr output' =>
      Forall (fun particle =>
                exists out, line_step' output particle = ret out) data /\
      length output' = length output /\
      forall k, 0 <= k < Z.of_nat (length output) ->
        cell output' k
        = foldl fadd (cell output k) (cross_contributions' data k)
  end.
Proof.
  intros Hn. revert output.
  induction data as [|particle data IH]; intros output; simpl.
  - split; [constructor|]. split; done.
  - destruct (line_step' output particle) as [e|output1] eqn:Hstep; simpl.
    + exists particle. split; [apply list_elem_of_here|].
      intros out Hlen. by apply (line_step_raises output).
    + pose proof (line_step_cell _ _ _ Hn Hstep) as [Hlen1 Hcell1].
      specialize (IH output1).
      destruct (foldM line_step' data output1) as [e|output'].
      * destruct IH as (q & Hq & Hraise). exists q.
        split; [by apply list_elem_of_further|].
        intros out Hlen. apply Hraise. by rewrite Hlen1.
      * destruct IH as (Hall & Hlen' & Hcell'). split; [|split].
        -- apply Forall_cons. split; [by exists output1|].
           eapply Forall_impl; [exact Hall|]. simpl.
           intros q [out Hq].
           destruct (line_step' output q) as [e|out'] eqn:Hq'; [|by exists out'].
           apply (line_step_raises _ output1) in Hq'; [|done].
           by rewrite Hq in Hq'.
        -- by rewrite Hlen', Hlen1.
        -- intros k Hk. rewrite Hcell', Hcell1 by (rewrite ?Hlen1; done).
           unfold cross_contributions. simpl.
           by destruct (cross_contribution' particle k).
Qed.

End LineStep.

(** The row-wise cross-section is the validation, the profile of zeros, the
    parameters of the line and the loop of [line_step] over the rows. *)
Lemma interpolate2DCross_rows_line kernel x1 y1 x2 y2 pixcount
    (data : list Particle) :
  interpolate2DCross_rows kernel x1 y1 x2 y2 pixcount data
  = if np_isclose y2 y1 && np_isclose x2 x1
    then raise (ValueError "Zero length cross section!")
    else if pixcount <=? 0
    then raise (ValueError "pixcount must be greater than zero!")
    else if negb (ndims kernel =? 2)
    then raise (ValueError "Kernel must be two-dimensional!")
    else
      letM output := np_zeros pixcount in
      letM line := line_of x1 y1 x2 y2 pixcount in
      foldM (line_step kernel x1 y1 x2 pixcount line) data output.
Proof.
  unfold interpolate2DCross_rows, line_of.
  destruct (np_isclose y2 y1 && np_isclose x2 x1); [done|].
  destruct (pixcount <=? 0); [done|].
  destruct (negb (ndims kernel =? 2)); [done|].
  destruct (np_zeros pixcount) as [e|output]; [done|]. cbn [bind].
  destruct (if negb (np_isclose x2 x1) then _ else _) as [e|gradient];
    [done|]. cbn [bind].
  destruct (py_pow2 (fsub x2 x1)) as [e|xx]; [done|]. cbn [bind].
  destruct (py_pow2 (fsub y2 y1)) as [e|yy]; [done|]. cbn [bind].
  destruct (py_div (fsub x2 x1) (of_Z pixcount)) as [e|xpixwidth]; [done|].
  cbn [bind].
  destruct (py_pow2 gradient) as [e|gg]; [done|]. cbn [bind].
  by destruct (py_pow2 (fsub y2 (fmul gradient x2))) as [e|yint2].
Qed.

Lemma cell_replicate (n : nat) (k : Z) : cell (replicate n zero) k = zero.
Proof.
  unfold cell. destruct (replicate n zero !! Z.to_nat k) eqn:Hk; [|done].
  by apply lookup_replicate in Hk as [-> _].
Qed.

(** The cross-section of a permuted table, when the weight filter drops no
    row. *)
Lemma interpolate2DCross_permutation kernel x1 y1 x2 y2 pixcount
    (data data' : list Particle) (output : list float) :
  data ≡ₚ data' ->
  Forall (fun particle => keeps_weight particle = true) data ->
  interpolate2DCross kernel x1 y1 x2 y2 pixcount data = ret output ->
  exists output' line,
    line_of x1 y1 x2 y2 pixcount = ret line /\
    interpolate2DCross kernel x1 y1 x2 y2 pixcount data' = ret output' /\
    forall k, 0 <= k < pixcount ->
      cell output k
      = foldl fadd zero
          (cross_contributions kernel x1 y1 x2 pixcount line data k) /\
      cell output' k
      = foldl fadd zero
          (cross_contributions kernel x1 y1 x2 pixcount line data' k) /\
      cross_contributions kernel x1 y1 x2 pixcount line data k
      ≡ₚ cross_contributions kernel x1 y1 x2 pixcount line data' k.
Proof.
  intros Hperm Hkw.
  assert (Forall (fun particle => keeps_weight particle = true) data')
    as Hkw' by (by rewrite <- Hperm).
  rewrite !interpolate2DCross_is_rows, !interpolate2DCross_rows_line by done.
  destruct (np_isclose y2 y1 && np_isclose x2 x1); [done|].
  destruct (Z.leb_spec pixcount 0) as [|Hn]; [done|].
  destruct (negb (ndims kernel =? 2)); [done|].
  unfold np_zeros. destruct (Z.ltb_spec pixcount 0); [lia|]. cbn [bind ret].
  destruct (line_of x1 y1 x2 y2 pixcount) as [e|line]; [done|]. cbn [bind ret].
  intros Hret.
  pose proof (foldM_line_step_spec kernel x1 y1 x2 pixcount line data
                (replicate (Z.to_nat pixcount) zero) Hn) as Hspec.
  pose proof (foldM_line_step_spec kernel x1 y1 x2 pixcount line data'
                (replicate (Z.to_nat pixcount) zero) Hn) as Hspec'.
  rewrite Hret in Hspec. destruct Hspec as (Hall & _ & Hcell).
  rewrite length_replicate in *.
  destruct (foldM _ data' _) as [e|output'].
  - exfalso. destruct Hspec' as (particle & Hin & Hraise).
    rewrite <- Hperm in Hin. rewrite Forall_forall in Hall.
    destruct (Hall particle Hin) as [out Hout].
    rewrite Hraise in Hout; [done|]. apply length_replicate.
  - destruct Hspec' as (_ & _ & Hcell'). exists output', line.
    split; [done|]. split; [done|]. intros k Hk.
    rewrite Hcell, Hcell' by lia. rewrite !cell_replicate.
    split; [done|]. split; [done|].
    unfold cross_contributions. by rewrite Hperm.
Qed.



(** ** The outcome of interpolate2D

    What a call returns or raises once its arguments have been validated:
    the shape of the image, the pixels no particle reaches, and the only way
    the loop can fail. *)

Lemma interpolate2D_ret_validated kernel pixwidthx pixwidthy xmin ymin
    pixcountx pixcounty data image :
  interpolate2D kernel pixwidthx pixwidthy xmin ymin pixcountx pixcounty data
  = ret image ->
  fleb pixwidthx zero = false /\ fleb pixwidthy zero = false /\
  0 < pixcountx /\ 0 < pixcounty /\ ndims kernel = 2.
Proof.
  unfold interpolate2D.
  destruct (fleb pixwidthx zero); [done|].
  destruct (fleb pixwidthy zero); [done|].
  destruct (Z.leb_spec pixcountx 0); [done|].
  destruct (Z.leb_spec pixcounty 0); [done|].
  destruct (Z.eqb_spec (ndims kernel) 2); [done|done].
Qed.

Lemma interpolate2D_outcome kernel pixwidthx pixwidthy xmin ymin
    pixcountx pixcounty data :
  fleb pixwidthx zero = false -> fleb pixwidthy zero = false ->
  0 < pixcountx -> 0 < pixcounty -> ndims kernel = 2 ->
  match interpolate2D kernel pixwidthx pixwidthy xmin ymin
          pixcountx pixcounty data with
  | inl e =>
      exists particle,
        particle ∈ data /\ fleb (weight_of particle) zero = false /\
        raw_bounds kernel pixwidthx pixwidthy xmin ymin particle = inl e
  | inr image =>
      Forall (fun particle =>
                converts kernel pixwidthx pixwidthy xmin ymin particle = true)
             data /\
      shape pixcounty pixcountx image /\
      forall j i, 0 <= j -> 0 <= i ->
        pixel image j i
        = foldl fadd zero
            (contributions kernel pixwidthx pixwidthy xmin ymin
               pixcountx pixcounty data j i)
  end.
Proof.
  intros Hx Hy Hnx Hny Hd.
  rewrite interpolate2D_validated by done.
  pose proof (foldM_particle_step_spec kernel pixwidthx pixwidthy xmin ymin
                pixcountx pixcounty data
                (replicate (Z.to_nat pixcounty)
                   (replicate (Z.to_nat pixcountx) zero))
                ltac:(lia) (shape_replicate pixcounty pixcountx)) as Hspec.
  destruct (foldM _ data _) as [e|image]; [exact Hspec|].
  destruct Hspec as (Hconv & Hshape & Hpix). split; [done|]. split; [done|].
  intros j i Hj Hi. by rewrite Hpix, pixel_replicate.
Qed.

(** X1: an image returned by [interpolate2D] has [pixcounty] rows of
    [pixcountx] pixels each: the first index is the row [jpix], the second
    the column [ipix]. *)
Theorem interpolate2D_shape kernel pixwidthx pixwidthy xmin ymin
    pixcountx pixcounty data image :
  interpolate2D kernel pixwidthx pixwidthy xmin ymin pixcountx pixcounty data
  = ret image ->
  shape pixcounty pixcountx image.
Proof.
  intros Hret.
  destruct (interpolate2D_ret_validated _ _ _ _ _ _ _ _ _ Hret)
    as (Hx & Hy & Hnx & Hny & Hd).
  pose proof (interpolate2D_outcome kernel pixwidthx pixwidthy xmin ymin
                pixcountx pixcounty data Hx Hy Hnx Hny Hd) as Hout.
  rewrite Hret in Hout. apply Hout.
Qed.

Lemma interpolate2D_shape_witness :
  exists image,
    interpolate2D Samples.tophat one one zero zero 4 3 [Samples.centre]
    = ret image /\
    length image = 3%nat /\ Forall (fun row => length row = 4%nat) image.
Proof.
  eexists. split; [vm_compute; reflexivity|].
  apply (interpolate2D_shape Samples.tophat one one zero zero 4 3
           [Samples.centre]).
  vm_compute. reflexivity.
Defined.

Lemma omap_none {A B : Type} (f : A -> option B) (l : list A) :
  Forall (fun a => f a = None) l -> omap f l = [].
Proof.
  induction 1 as [|a l Ha _ IH]; [done|]. simpl. rewrite Ha. exact IH.
Qed.

(** X2: a pixel that lies in the clamped rectangle of no particle of the
    table (every particle is skipped, or its rectangle leaves the pixel out)
    holds exactly [0.0] in the returned image. *)
Theorem interpolate2D_uncovered_pixel kernel pixwidthx pixwidthy xmin ymin
    pixcountx pixcounty data image (j i : Z) :
  interpolate2D kernel pixwidthx pixwidthy xmin ymin pixcountx pixcounty data
  = ret image ->
  0 <= j -> 0 <= i ->
  Forall (fun particle =>
            fleb (weight_of particle) zero = true \/
            exists raw,
              raw_bounds kernel pixwidthx pixwidthy xmin ymin particle
              = ret raw /\
              in_rect (clamp_bounds pixcountx pixcounty raw) j i = false)
         data ->
  pixel image j i = zero.
Proof.
  intros Hret Hj Hi Hall.
  destruct (interpolate2D_ret_validated _ _ _ _ _ _ _ _ _ Hret)
    as (Hx & Hy & Hnx & Hny & Hd).
  pose proof (interpolate2D_outcome kernel pixwidthx pixwidthy xmin ymin
                pixcountx pixcounty data Hx Hy Hnx Hny Hd) as Hout.
  rewrite Hret in Hout. destruct Hout as (_ & _ & Hpix).
  rewrite Hpix by done. unfold contributions. rewrite omap_none; [done|].
  eapply Forall_impl; [exact Hall|]. intros particle Hp. unfold contribution.
  destruct Hp as [->|(raw & Hr & Hout)]; [done|].
  rewrite Hr. cbn [ret]. rewrite Hout.
  by destruct (fleb (weight_of particle) zero).
Qed.

Lemma interpolate2D_uncovered_pixel_witness :
  exists image,
    interpolate2D Samples.tophat one one zero zero 4 4 [Samples.centre]
    = ret image /\
    pixel image 0 3 = zero.
Proof.
  eexists. split; [vm_compute; reflexivity|].
  apply (interpolate2D_uncovered_pixel Samples.tophat one one zero zero 4 4
           [Samples.centre]); [vm_compute; reflexivity | lia | lia |].
  constructor; [|constructor]. right. eexists.
  split; vm_compute; reflexivity.
Defined.

(** The conversion [int(x)] fails in two ways only. *)
Lemma py_int_error (x : float) (e : PyError) :
  py_int x = inl e -> e = nan_conversion \/ e = infinity_conversion.
Proof. destruct x; simpl; intros [= <-]; auto. Qed.

Lemma raw_bounds_error kernel pixwidthx pixwidthy xmin ymin particle e :
  raw_bounds kernel pixwidthx pixwidthy xmin ymin particle = inl e ->
  e = nan_conversion \/ e = infinity_conversion.
Proof.
  unfold raw_bounds. cbv zeta.
  repeat (rewrite bind_raise;
          intros [H|(? & _ & H)]; [by apply py_int_error in H|revert H]).
  done.
Qed.

Section Outcome.

Variable kernel : BaseKernel.
Variables pixwidthx pixwidthy xmin ymin : float.
Variables pixcountx pixcounty : Z.

#[local] Abbreviation interpolate2D' :=
  (interpolate2D kernel pixwidthx pixwidthy xmin ymin pixcountx pixcounty).
#[local] Abbreviation bounds' :=
  (raw_bounds kernel pixwidthx pixwidthy xmin ymin).

(** The particle is skipped, or its pixel bounds convert to integers. *)
#[local] Abbreviation passes particle :=
  (fleb (weight_of particle) zero = true \/
   exists raw, bounds' particle = ret raw).

(** The first particle that is not skipped and whose pixel bounds do not
    convert ends the call with the error of its conversion. *)
Lemma interpolate2D_first_failure (pre post : list Particle)
    (particle : Particle) (e : PyError) :
  fleb pixwidthx zero = false -> fleb pixwidthy zero = false ->
  0 < pixcountx -> 0 < pixcounty -> ndims kernel = 2 ->
  Forall (fun particle => passes particle) pre ->
  fleb (weight_of particle) zero = false ->
  bounds' particle = raise e ->
  interpolate2D' (pre ++ particle :: post) = raise e.
Proof.
  intros Hx Hy Hnx Hny Hd Hpre Hw He.
  rewrite interpolate2D_validated by done.
  rewrite foldM_app.
  pose proof (foldM_particle_step_spec kernel pixwidthx pixwidthy xmin ymin
                pixcountx pixcounty pre
                (replicate (Z.to_nat pixcounty)
                   (replicate (Z.to_nat pixcountx) zero))
                ltac:(lia) (shape_replicate pixcounty pixcountx)) as Hspec.
  destruct (foldM _ pre _) as [e'|image].
  - destruct Hspec as (p & Hin & Hpw & Hpe).
    rewrite Forall_forall in Hpre. destruct (Hpre p Hin) as [Hs|(raw & Hr)].
    + congruence.
    + rewrite Hr in Hpe. discriminate.
  - destruct Hspec as (_ & Hshape & _). cbn [bind foldM].
    pose proof (particle_step_spec kernel pixwidthx pixwidthy xmin ymin
                  pixcountx pixcounty image particle ltac:(lia) Hshape)
      as Hstep.
    rewrite Hw, He in Hstep. unfold raise in Hstep. by rewrite Hstep.
Qed.

End Outcome.

(** X3: once the arguments are validated, [interpolate2D] returns an image
    exactly when, for every particle that is not skipped, the four
    conversions [int(np.rint(...))] of lines 72-75 succeed.  Otherwise it
    raises the error of the first particle whose conversion fails, and that
    error is [ValueError] for a NaN bound or [OverflowError] for an infinite
    one: no other error can leave the loop. *)
Theorem interpolate2D_returns_iff kernel pixwidthx pixwidthy xmin ymin
    pixcountx pixcounty data :
  fleb pixwidthx zero = false -> fleb pixwidthy zero = false ->
  0 < pixcountx -> 0 < pixcounty -> ndims kernel = 2 ->
  ((exists image,
      interpolate2D kernel pixwidthx pixwidthy xmin ymin pixcountx pixcounty
        data = ret image)
   <-> Forall (fun particle =>
                 fleb (weight_of particle) zero = true \/
                 exists raw,
                   raw_bounds kernel pixwidthx pixwidthy xmin ymin particle
                   = ret raw)
              data) /\
  (forall pre particle post e,
     data = pre ++ particle :: post ->
     Forall (fun particle =>
               fleb (weight_of particle) zero = true \/
               exists raw,
                 raw_bounds kernel pixwidthx pixwidthy xmin ymin particle
                 = ret raw)
            pre ->
     fleb (weight_of particle) zero = false ->
     raw_bounds kernel pixwidthx pixwidthy xmin ymin particle = raise e ->
     interpolate2D kernel pixwidthx pixwidthy xmin ymin pixcountx pixcounty
       data = raise e) /\
  (forall e,
     interpolate2D kernel pixwidthx pixwidthy xmin ymin pixcountx pixcounty
       data = raise e ->
     e = nan_conversion \/ e = infinity_conversion).
Proof.
  intros Hx Hy Hnx Hny Hd.
  pose proof (interpolate2D_outcome kernel pixwidthx pixwidthy xmin ymin
                pixcountx pixcounty data Hx Hy Hnx Hny Hd) as Hout.
  split; [|split].
  - split.
    + intros (image & Hret). rewrite Hret in Hout.
      destruct Hout as (Hconv & _). eapply Forall_impl; [exact Hconv|].
      intros particle. by rewrite converts_spec.
    + intros Hall.
      destruct (interpolate2D _ _ _ _ _ _ _ data) as [e|image]; [|by eexists].
      destruct Hout as (p & Hin & Hw & He). rewrite Forall_forall in Hall.
      destruct (Hall p Hin) as [Hs|(raw & Hr)]; [congruence|].
      rewrite Hr in He. discriminate.
  - intros pre particle post e -> Hpre Hw He.
    by apply interpolate2D_first_failure.
  - intros e He. unfold raise in He. rewrite He in Hout.
    destruct Hout as (p & _ & _ & Hp). by apply raw_bounds_error in Hp.
Qed.

Lemma interpolate2D_returns_iff_witness :
  fleb (weight_of Exceptional.nan_x) zero = false /\
  interpolate2D Samples.tophat one one zero zero 4 4
    [Samples.centre; Exceptional.nan_x; Samples.centre]
  = raise nan_conversion.
Proof.
  split; [reflexivity|].
  destruct (interpolate2D_returns_iff Samples.tophat one one zero zero 4 4
              [Samples.centre; Exceptional.nan_x; Samples.centre])
    as (_ & Hfirst & _); [reflexivity | reflexivity | lia | lia | reflexivity |].
  apply (Hfirst [Samples.centre] Exceptional.nan_x [Samples.centre]).
  - reflexivity.
  - constructor; [|constructor]. right. eexists. vm_compute. reflexivity.
  - reflexivity.
  - reflexivity.
Defined.

(** ** NaN and infinite values in a particle

    A NaN or an infinity in one row either stops the call, poisons the pixels
    of the row, or drops the row silently. *)

Lemma fmul_nan_r (x : float) : fmul x S754_nan = S754_nan.
Proof. by destruct x. Qed.

Lemma fdiv_nan_r (x : float) : fdiv x S754_nan = S754_nan.
Proof. by destruct x. Qed.

Lemma fsub_nan_r (x : float) : fsub x S754_nan = S754_nan.
Proof. by destruct x. Qed.

Lemma fadd_nan_r (x : float) : fadd x S754_nan = S754_nan.
Proof. by destruct x. Qed.

Lemma is_nan_eq (x : float) : is_nan x = true -> x = S754_nan.
Proof. by destruct x. Qed.

Lemma nan_smoothing_length_weight (particle : Particle) :
  is_nan (p_h particle) = true -> weight_of particle = S754_nan.
Proof.
  intros Hh%is_nan_eq. unfold weight_of, fsquare. rewrite Hh.
  change (fmul S754_nan S754_nan) with S754_nan.
  by rewrite fmul_nan_r, fdiv_nan_r.
Qed.

Lemma raw_bounds_nan kernel pixwidthx pixwidthy xmin ymin particle :
  is_nan (p_h particle) = true \/ is_nan (p_x particle) = true \/
  is_nan (p_y particle) = true ->
  exists e, raw_bounds kernel pixwidthx pixwidthy xmin ymin particle = raise e.
Proof.
  intros Hnan. unfold raw_bounds. cbv zeta.
  assert (forall a b : float, fdiv (fsub (fsub S754_nan a) b) pixwidthx
                              = S754_nan) as Hx by done.
  assert (forall a b : float, fdiv (fsub (fsub S754_nan a) b) pixwidthy
                              = S754_nan) as Hy by done.
  destruct Hnan as [Hh%is_nan_eq|[Hpx%is_nan_eq|Hpy%is_nan_eq]].
  - unfold radkern_of. rewrite Hh, fmul_nan_r, fsub_nan_r.
    change (fsub S754_nan xmin) with S754_nan.
    change (fdiv S754_nan pixwidthx) with S754_nan. by eexists.
  - rewrite Hpx, Hx. by eexists.
  - rewrite Hpy, Hy.
    destruct (py_int (np_rint (fdiv (fsub (fsub (p_x particle) _) _) _)))
      as [e|ipixmin]; by eexists.
Qed.

(** X4: a particle with a NaN smoothing length, or a particle that is not
    skipped and has a NaN coordinate, makes the validated call raise: the
    whole image is lost, whatever the other particles are. *)
Theorem interpolate2D_nan_particle_raises kernel pixwidthx pixwidthy xmin ymin
    pixcountx pixcounty data particle :
  fleb pixwidthx zero = false -> fleb pixwidthy zero = false ->
  0 < pixcountx -> 0 < pixcounty -> ndims kernel = 2 ->
  particle ∈ data ->
  is_nan (p_h particle) = true \/
  (fleb (weight_of particle) zero = false /\
   (is_nan (p_x particle) = true \/ is_nan (p_y particle) = true)) ->
  exists e,
    interpolate2D kernel pixwidthx pixwidthy xmin ymin pixcountx pixcounty data
    = raise e /\
    (e = nan_conversion \/ e = infinity_conversion).
Proof.
  intros Hx Hy Hnx Hny Hd Hin Hnan.
  pose proof (interpolate2D_outcome kernel pixwidthx pixwidthy xmin ymin
                pixcountx pixcounty data Hx Hy Hnx Hny Hd) as Hout.
  destruct (interpolate2D _ _ _ _ _ _ _ data) as [e|image].
  - exists e. split; [done|]. destruct Hout as (p & _ & _ & Hp).
    by apply raw_bounds_error in Hp.
  - exfalso. destruct Hout as (Hconv & _). rewrite Forall_forall in Hconv.
    apply Hconv, converts_spec in Hin.
    assert (fleb (weight_of particle) zero = false) as Hw.
    { destruct Hnan as [Hh|[Hw _]]; [|done].
      by rewrite (nan_smoothing_length_weight particle Hh). }
    destruct Hin as [Hs|(raw & Hr)]; [congruence|].
    destruct (raw_bounds_nan kernel pixwidthx pixwidthy xmin ymin particle)
      as (e & He); [tauto|]. rewrite He in Hr. discriminate.
Qed.

Lemma interpolate2D_nan_particle_raises_witness :
  exists e,
    interpolate2D Samples.tophat one one zero zero 4 4
      [Samples.centre; Exceptional.nan_h]
    = raise e /\
    (e = nan_conversion \/ e = infinity_conversion).
Proof.
  apply (interpolate2D_nan_particle_raises Samples.tophat one one zero zero
           4 4 [Samples.centre; Exceptional.nan_h] Exceptional.nan_h);
    [reflexivity | reflexivity | lia | lia | reflexivity | | by left].
  apply list_elem_of_further, list_elem_of_here.
Defined.

(** X5: a particle with an infinite smoothing length and finite mass and
    density (the density not zero) has weight zero, so [interpolate2D] skips
    it: the result is the result without the particle. *)
Theorem infinite_smoothing_length_is_skipped kernel pixwidthx pixwidthy
    xmin ymin pixcountx pixcounty (pre post : list Particle)
    (particle : Particle) :
  is_finite (p_h particle) = false -> is_nan (p_h particle) = false ->
  is_finite (p_m particle) = true ->
  is_finite (p_rho particle) = true -> is_zero (p_rho particle) = false ->
  is_zero (weight_of particle) = true /\
  fleb (weight_of particle) zero = true /\
  interpolate2D kernel pixwidthx pixwidthy xmin ymin pixcountx pixcounty
    (pre ++ particle :: post)
  = interpolate2D kernel pixwidthx pixwidthy xmin ymin pixcountx pixcounty
      (pre ++ post).
Proof.
  intros Hh Hh' Hm Hrho Hrho'.
  assert (is_zero (weight_of particle) = true) as Hw.
  { unfold weight_of, fsquare.
    destruct (p_h particle) as [| | |]; try done.
    destruct (p_rho particle) as [| | |sr mr er]; try done.
    by destruct (p_m particle). }
  assert (fleb (weight_of particle) zero = true) as Hskip.
  { by destruct (weight_of particle) as [[]| | |]. }
  split; [done|]. split; [done|].
  apply interpolate2D_drop. intros _ image _.
  unfold particle_step. by rewrite Hskip.
Qed.

Lemma infinite_smoothing_length_is_skipped_witness :
  is_zero (weight_of Exceptional.infinite_h) = true /\
  fleb (weight_of Exceptional.infinite_h) zero = true /\
  interpolate2D Samples.tophat one one zero zero 4 4
    ([Samples.centre] ++ Exceptional.infinite_h :: [Samples.centre])
  = interpolate2D Samples.tophat one one zero zero 4 4
      ([Samples.centre] ++ [Samples.centre]).
Proof.
  by apply (infinite_smoothing_length_is_skipped Samples.tophat one one
              zero zero 4 4 [Samples.centre] [Samples.centre]
              Exceptional.infinite_h).
Defined.

Lemma foldl_fadd_nan (l : list float) :
  foldl fadd S754_nan l = S754_nan.
Proof. induction l as [|x l IH]; [done|]. simpl. exact IH. Qed.

Lemma foldl_fadd_nan_elem (a : float) (l : list float) :
  S754_nan ∈ l -> foldl fadd a l = S754_nan.
Proof.
  revert a. induction l as [|x l IH]; intros a Hin.
  - by apply elem_of_nil in Hin.
  - apply elem_of_cons in Hin as [<-|Hin]; simpl.
    + rewrite fadd_nan_r. apply foldl_fadd_nan.
    + by apply IH.
Qed.

(** X6: a particle whose weight is NaN (a NaN mass or density, or the
    quotient 0/0) is not skipped, since [weight <= 0] is false for NaN; in
    every returned image each pixel of its clamped rectangle is NaN. *)
Theorem nan_weight_poisons_rectangle kernel pixwidthx pixwidthy xmin ymin
    pixcountx pixcounty data image particle raw (j i : Z) :
  interpolate2D kernel pixwidthx pixwidthy xmin ymin pixcountx pixcounty data
  = ret image ->
  particle ∈ data ->
  is_nan (weight_of particle) = true ->
  raw_bounds kernel pixwidthx pixwidthy xmin ymin particle = ret raw ->
  in_rect (clamp_bounds pixcountx pixcounty raw) j i = true ->
  is_nan (pixel image j i) = true.
Proof.
  intros Hret Hin Hnan%is_nan_eq Hraw Hrect.
  destruct (interpolate2D_ret_validated _ _ _ _ _ _ _ _ _ Hret)
    as (Hx & Hy & Hnx & Hny & Hd).
  pose proof (interpolate2D_outcome kernel pixwidthx pixwidthy xmin ymin
                pixcountx pixcounty data Hx Hy Hnx Hny Hd) as Hout.
  rewrite Hret in Hout. destruct Hout as (_ & _ & Hpix).
  destruct (clamp_bounds pixcountx pixcounty raw)
    as [[[ipixmin jpixmin] ipixmax] jpixmax] eqn:Hclamp.
  destruct (clamp_bounds_range pixcountx pixcounty raw _ _ _ _ Hclamp)
    as (Hi0 & _ & Hj0 & _).
  simpl in Hrect.
  rewrite Hpix by lia. rewrite foldl_fadd_nan_elem; [done|].
  unfold contributions. apply list_elem_of_omap. exists particle.
  split; [done|]. unfold contribution. rewrite Hnan. simpl fleb. cbv iota.
  rewrite Hraw. cbn [ret]. rewrite Hclamp. simpl in_rect. rewrite Hrect.
  unfold cell_value, term_of. by rewrite Hnan.
Qed.

Lemma nan_weight_poisons_rectangle_witness :
  exists image,
    interpolate2D Samples.tophat one one zero zero 4 4
      [Samples.centre; Exceptional.nan_mass] = ret image /\
    is_nan (pixel image 1 2) = true.
Proof.
  eexists. split; [vm_compute; reflexivity|].
  eapply (nan_weight_poisons_rectangle Samples.tophat one one zero zero 4 4
            [Samples.centre; Exceptional.nan_mass] _ Exceptional.nan_mass).
  - vm_compute. reflexivity.
  - apply list_elem_of_further, list_elem_of_here.
  - reflexivity.
  - vm_compute. reflexivity.
  - reflexivity.
Defined.

(** ** Tables in several parts *)

(** X7: [interpolate2D] reads the table from first row to last.  An error
    raised on a table is raised on every table that starts with it; and the
    image of a table in two parts is the image of the first part on which the
    loop goes on with the second part, so that each pixel is the pixel of the
    first image plus, one after the other, what the particles of the second
    part add to it. *)
Theorem interpolate2D_app kernel pixwidthx pixwidthy xmin ymin
    pixcountx pixcounty (data1 data2 : list Particle) :
  (forall e,
     interpolate2D kernel pixwidthx pixwidthy xmin ymin pixcountx pixcounty
       data1 = raise e ->
     interpolate2D kernel pixwidthx pixwidthy xmin ymin pixcountx pixcounty
       (data1 ++ data2) = raise e) /\
  (forall image1,
     interpolate2D kernel pixwidthx pixwidthy xmin ymin pixcountx pixcounty
       data1 = ret image1 ->
     interpolate2D kernel pixwidthx pixwidthy xmin ymin pixcountx pixcounty
       (data1 ++ data2)
     = foldM (particle_step kernel pixwidthx pixwidthy xmin ymin
                pixcountx pixcounty) data2 image1 /\
     forall image,
       interpolate2D kernel pixwidthx pixwidthy xmin ymin pixcountx pixcounty
         (data1 ++ data2) = ret image ->
       forall j i, 0 <= j -> 0 <= i ->
         pixel image j i
         = foldl fadd (pixel image1 j i)
             (contributions kernel pixwidthx pixwidthy xmin ymin
                pixcountx pixcounty data2 j i)).
Proof.
  split.
  - unfold interpolate2D. repeat case_match; try done.
    destruct (np_zeros2 pixcounty pixcountx) as [e'|image]; [done|].
    cbn [bind]. rewrite foldM_app. intros e ->. done.
  - intros image1 H1.
    destruct (interpolate2D_ret_validated _ _ _ _ _ _ _ _ _ H1)
      as (Hx & Hy & Hnx & Hny & Hd).
    pose proof (interpolate2D_outcome kernel pixwidthx pixwidthy xmin ymin
                  pixcountx pixcounty data1 Hx Hy Hnx Hny Hd) as Hout.
    rewrite H1 in Hout. destruct Hout as (_ & Hshape & _).
    revert H1. rewrite !interpolate2D_validated by done.
    rewrite foldM_app. intros ->. cbn [bind ret]. split; [done|].
    intros image Hret j i Hj Hi.
    pose proof (foldM_particle_step_spec kernel pixwidthx pixwidthy xmin ymin
                  pixcountx pixcounty data2 image1 ltac:(lia) Hshape) as Hspec.
    rewrite Hret in Hspec. destruct Hspec as (_ & _ & Hpix). by apply Hpix.
Qed.

(** ** The length of a profile *)

Lemma norm_slice_range (n a : Z) : 0 <= n -> 0 <= norm_slice n a <= n.
Proof. intros Hn. unfold norm_slice. destruct (Z.ltb_spec a 0); lia. Qed.

Lemma slice_iadd_length (output output' : list float) (a b : Z)
    (vals : list float) :
  slice_iadd output a b vals = ret output' -> length output' = length output.
Proof.
  unfold slice_iadd.
  set (n := Z.of_nat (length output)).
  pose proof (norm_slice_range n a ltac:(lia)) as Ha.
  pose proof (norm_slice_range n b ltac:(lia)) as Hb.
  set (start := Z.to_nat (norm_slice n a)).
  set (len := Z.to_nat (norm_slice n b - norm_slice n a)).
  destruct (match vals with
            | [v] => Some (replicate len v)
            | _ => if decide (length vals = len) then Some vals else None
            end) as [vs|] eqn:Hvs; [|done].
  intros [= <-].
  assert (length vs = len) as Hlen.
  { destruct vals as [|v [|v' l]].
    - by destruct (decide _); [injection Hvs as <-|].
    - injection Hvs as <-. apply length_replicate.
    - by destruct (decide _); [injection Hvs as <-|]. }
  rewrite !length_app, length_zip_with, !length_take, !length_drop. lia.
Qed.

Lemma foldM_invariant {A S : Type} (P : S -> Prop) (f : S -> A -> Exc S)
    (l : list A) (s s' : S) :
  (forall s a s', P s -> f s a = ret s' -> P s') ->
  P s -> foldM f l s = ret s' -> P s'.
Proof.
  intros Hstep. revert s. induction l as [|a l IH]; intros s Hs; simpl.
  - by intros [= <-].
  - destruct (f s a) as [e|s1] eqn:Hf; [done|]. cbn [bind].
    apply IH. by apply (Hstep s a).
Qed.

Lemma cross_step_length kernel x1 data gradient yint xpixwidth
    term ipixmin ipixmax (output output' : list float) (i : Z) :
  cross_step kernel x1 data gradient yint xpixwidth term ipixmin ipixmax
    output i = ret output' ->
  length output' = length output.
Proof.
  unfold cross_step. cbv zeta.
  repeat (rewrite bind_ret; intros (? & _ & H); revert H).
  apply slice_iadd_length.
Qed.

(** X8: a profile returned by [interpolate2DCross] has [pixcount] pixels:
    no slice assignment of the loop changes the length of [output]. *)
Theorem interpolate2DCross_length kernel x1 y1 x2 y2 pixcount data output :
  interpolate2DCross kernel x1 y1 x2 y2 pixcount data = ret output ->
  0 < pixcount /\ length output = Z.to_nat pixcount.
Proof.
  unfold interpolate2DCross.
  destruct (np_isclose y2 y1 && np_isclose x2 x1); [done|].
  destruct (Z.leb_spec pixcount 0); [done|].
  destruct (negb (ndims kernel =? 2)); [done|].
  unfold np_zeros. destruct (Z.ltb_spec pixcount 0); [lia|]. cbn [bind ret].
  destruct (if negb (np_isclose x2 x1) then _ else _) as [e|gradient];
    [done|]. cbn [bind].
  destruct (py_pow2 (fsub x2 x1)) as [e|xx]; [done|]. cbn [bind].
  destruct (py_pow2 (fsub y2 y1)) as [e|yy]; [done|]. cbn [bind].
  destruct (py_div (fsub x2 x1) (of_Z pixcount)) as [e|xpixwidth]; [done|].
  cbn [bind].
  destruct (py_pow2 gradient) as [e|gg]; [done|]. cbn [bind].
  destruct (py_pow2 (fsub y2 (fmul gradient x2))) as [e|yint2]; [done|].
  cbn [bind]. cbv zeta.
  intros Hfold. split; [done|].
  apply (foldM_invariant
           (fun out : list float => length out = Z.to_nat pixcount))
    in Hfold; [done| |apply length_replicate].
  intros out i out' Hout Hstep. apply cross_step_length in Hstep. congruence.
Qed.

Lemma interpolate2DCross_length_witness :
  exists output,
    interpolate2DCross Samples.tophat zero zero four four 8 [Samples.centre]
    = ret output /\
    0 < 8 /\ length output = 8%nat.
Proof.
  eexists. split; [vm_compute; reflexivity|].
  apply (interpolate2DCross_length Samples.tophat zero zero four four 8
           [Samples.centre]).
  vm_compute. reflexivity.
Defined.

(** ** The cross-section loop over the filtered series *)

Lemma interpolate2DCross_ret_line kernel x1 y1 x2 y2 pixcount data output :
  interpolate2DCross kernel x1 y1 x2 y2 pixcount data = ret output ->
  np_isclose y2 y1 && np_isclose x2 x1 = false /\ 0 < pixcount /\
  ndims kernel = 2 /\ exists line, line_of x1 y1 x2 y2 pixcount = ret line.
Proof.
  unfold interpolate2DCross, line_of.
  destruct (np_isclose y2 y1 && np_isclose x2 x1); [done|].
  destruct (Z.leb_spec pixcount 0); [done|].
  destruct (Z.eqb_spec (ndims kernel) 2) as [Hd|Hd]; [|done].
  simpl negb. cbv iota.
  unfold np_zeros. destruct (Z.ltb_spec pixcount 0); [lia|]. cbn [bind ret].
  destruct (if negb (np_isclose x2 x1) then _ else _) as [e|gradient];
    [done|]. cbn [bind].
  destruct (py_pow2 (fsub x2 x1)) as [e|xx]; [done|]. cbn [bind].
  destruct (py_pow2 (fsub y2 y1)) as [e|yy]; [done|]. cbn [bind].
  destruct (py_div (fsub x2 x1) (of_Z pixcount)) as [e|xpixwidth]; [done|].
  cbn [bind].
  destruct (py_pow2 gradient) as [e|gg]; [done|]. cbn [bind].
  destruct (py_pow2 (fsub y2 (fmul gradient x2))) as [e|yint2]; [done|].
  cbn [bind]. intros _. repeat split; try done. by eexists.
Qed.

(** [interpolate2DCross] after the validation, with every intermediate
    series written as a function of the rows it is computed from. *)
Lemma interpolate2DCross_series kernel x1 y1 x2 y2 pixcount
    (line : Line) (data : list Particle) :
  np_isclose y2 y1 && np_isclose x2 x1 = false ->
  0 < pixcount -> ndims kernel = 2 ->
  line_of x1 y1 x2 y2 pixcount = ret line ->
  interpolate2DCross kernel x1 y1 x2 y2 pixcount data
  = foldM (cross_step kernel x1 data (l_gradient line) (l_yint line)
             (l_xpixwidth line) (cross_term data)
             (ser (ipixmin_of kernel x1 y1 x2 pixcount (l_gradient line)
                     (l_yint line) (l_pixwidth line) (l_aa line)
                     (l_yint2 line))
                  (surviving kernel (l_gradient line) (l_yint line)
                     (l_aa line) (l_yint2 line) (weight_kept data)))
             (ser (ipixmax_of kernel x1 y1 x2 pixcount (l_gradient line)
                     (l_yint line) (l_pixwidth line) (l_aa line)
                     (l_yint2 line))
                  (surviving kernel (l_gradient line) (l_yint line)
                     (l_aa line) (l_yint2 line) (weight_kept data))))
          (nonzero (ser (keeps_det kernel (l_gradient line) (l_yint line)
                           (l_aa line) (l_yint2 line))
                        (weight_kept data)))
          (replicate (Z.to_nat pixcount) zero).
Proof.
  intros Hclose Hn Hd Hline.
  unfold interpolate2DCross. rewrite Hclose, Hd.
  destruct (Z.leb_spec pixcount 0); [lia|]. simpl negb. cbv iota.
  unfold np_zeros. destruct (Z.ltb_spec pixcount 0); [lia|]. cbn [bind ret].
  revert Hline. unfold line_of.
  destruct (if negb (np_isclose x2 x1) then _ else _) as [e|gradient];
    [done|]. cbn [bind].
  destruct (py_pow2 (fsub x2 x1)) as [e|xx]; [done|]. cbn [bind].
  destruct (py_pow2 (fsub y2 y1)) as [e|yy]; [done|]. cbn [bind].
  destruct (py_div (fsub x2 x1) (of_Z pixcount)) as [e|xpixwidth]; [done|].
  cbn [bind].
  destruct (py_pow2 gradient) as [e|gg]; [done|]. cbn [bind].
  destruct (py_pow2 (fsub y2 (fmul gradient x2))) as [e|yint2]; [done|].
  cbn [bind]. intros [= <-]. cbv zeta. cbn [l_gradient l_yint l_pixwidth
    l_xpixwidth l_aa l_yint2].
  rewrite filter_weight_ser, !column_ser, !smask_ser.
  fold (weight_kept data).
  by rewrite !bb_ser, !cc_ser, !det_ser, !filter_det_ser, !sqrt_det_ser,
    xstart_ser, xend_ser, !pix_dist_ser.
Qed.

Lemma labelled_from_app (k : nat) (l1 l2 : list Particle) :
  labelled_from k (l1 ++ l2)
  = labelled_from k l1 ++ labelled_from (k + length l1) l2.
Proof.
  revert k. induction l1 as [|p l1 IH]; intros k; simpl.
  - by rewrite Nat.add_0_r.
  - rewrite IH. do 3 f_equal. lia.
Qed.

Lemma lookup_labelled_from (k i : nat) (data : list Particle)
    (particle : Particle) :
  data !! i = Some particle ->
  labelled_from k data !! i = Some (Z.of_nat (k + i), particle).
Proof.
  revert k i. induction data as [|p data IH]; intros k i; [done|].
  destruct i as [|i]; simpl.
  - intros [= ->]. by rewrite Nat.add_0_r.
  - intros Hi. rewrite (IH (S k) i Hi). do 3 f_equal. lia.
Qed.

Lemma filter_none {A : Type} (P : A -> Prop) `{forall x, Decision (P x)}
    (l : list A) :
  Forall (fun x => ~ P x) l -> filter P l = [].
Proof.
  induction 1 as [|x l Hx _ IH]; [done|].
  rewrite filter_cons. by rewrite decide_False.
Qed.

Lemma nonzero_app_false (s1 s2 : Series bool) :
  Forall (fun lb => lb.2 = false) s2 -> nonzero (s1 ++ s2) = nonzero s1.
Proof.
  intros Hfalse. unfold nonzero.
  rewrite length_app, seq_app, zip_with_app by (by rewrite length_seq).
  rewrite omap_app, (omap_none _ (zip _ s2)); [by rewrite app_nil_r|].
  apply Forall_forall. intros [k lb] Hin.
  apply elem_of_zip_r in Hin. rewrite Forall_forall in Hfalse.
  simpl. by rewrite (Hfalse lb Hin).
Qed.

Section RowsThenDropped.

Variable kernel : BaseKernel.
Variables x1 y1 x2 y2 : float.
Variable pixcount : Z.
Variable line : Line.

#[local] Abbreviation keeps_det' :=
  (keeps_det kernel (l_gradient line) (l_yint line) (l_aa line)
     (l_yint2 line)).
#[local] Abbreviation step' := (line_step kernel x1 y1 x2 pixcount line).

Hypothesis Hclose : np_isclose y2 y1 && np_isclose x2 x1 = false.
Hypothesis Hcount : 0 < pixcount.
Hypothesis Hdims : ndims kernel = 2.
Hypothesis Hline : line_of x1 y1 x2 y2 pixcount = ret line.

Lemma interpolate2DCross_rows_validated (data : list Particle) :
  interpolate2DCross_rows kernel x1 y1 x2 y2 pixcount data
  = foldM step' data (replicate (Z.to_nat pixcount) zero).
Proof.
  rewrite interpolate2DCross_rows_line, Hclose, Hdims, Hline.
  destruct (Z.leb_spec pixcount 0); [lia|]. simpl negb. cbv iota.
  unfold np_zeros. by destruct (Z.ltb_spec pixcount 0); [lia|].
Qed.

(** Rows that pass no filter, placed after the rows that pass the weight
    filter, are not reached by the loop. *)
Lemma interpolate2DCross_rows_then_dropped (good tail : list Particle) :
  Forall (fun particle => keeps_weight particle = true) good ->
  Forall (fun particle =>
            keeps_weight particle && keeps_det' particle = false) tail ->
  interpolate2DCross kernel x1 y1 x2 y2 pixcount (good ++ tail)
  = foldM step' good (replicate (Z.to_nat pixcount) zero).
Proof.
  intros Hgood Htail.
  rewrite (interpolate2DCross_series kernel x1 y1 x2 y2 pixcount line)
    by done.
  assert (weight_kept (good ++ tail)
          = labelled_from 0 good
            ++ filter (fun lp : Z * Particle => keeps_weight lp.2 = true)
                 (labelled_from (length good) tail)) as Hkept.
  { unfold weight_kept. rewrite labelled_from_app, filter_app.
    rewrite (filter_all _ (labelled_from 0 good)); [done|].
    by apply (Forall_labelled_from
                (fun particle => keeps_weight particle = true)). }
  assert (Forall (fun lp : Z * Particle => keeps_det' lp.2 = false)
            (filter (fun lp : Z * Particle => keeps_weight lp.2 = true)
               (labelled_from (length good) tail))) as Hnone.
  { apply Forall_forall. intros lp [Hw Hin]%list_elem_of_filter.
    apply (Forall_labelled_from _ (length good)) in Htail.
    rewrite Forall_forall in Htail. apply Htail in Hin.
    rewrite Hw in Hin. exact Hin. }
  assert (surviving kernel (l_gradient line) (l_yint line) (l_aa line)
            (l_yint2 line) (weight_kept (good ++ tail))
          = surviving kernel (l_gradient line) (l_yint line) (l_aa line)
              (l_yint2 line) (labelled_from 0 good)) as Hsurv.
  { unfold surviving. rewrite Hkept, filter_app.
    rewrite (filter_none _ (filter _ (labelled_from (length good) tail)));
      [by rewrite app_nil_r|].
    eapply Forall_impl; [exact Hnone|]. intros lp Hlp. by rewrite Hlp. }
  rewrite Hsurv, Hkept. unfold ser at 3. rewrite fmap_app.
  rewrite nonzero_app_false.
  2:{ apply Forall_fmap. eapply Forall_impl; [exact Hnone|]. done. }
  fold (ser keeps_det' (labelled_from 0 good)).
  rewrite nonzero_ser, foldM_fmap.
  unfold line_step.
  rewrite <- (foldM_survivors kernel x1 y1 x2 pixcount (l_gradient line)
                (l_yint line) (l_pixwidth line) (l_xpixwidth line)
                (l_aa line) (l_yint2 line) 0 good _ Hgood).
  apply foldM_ext_in. intros out [i particle] Hin.
  apply (cross_step_row kernel x1 y1 x2 pixcount (l_gradient line)
           (l_yint line) (l_pixwidth line) (l_xpixwidth line) (l_aa line)
           (l_yint2 line)).
  - apply NoDup_fst_filter, NoDup_labelled_from.
  - exact Hin.
  - apply list_elem_of_filter in Hin as [_ Hin].
    rewrite labelled_from_app. apply elem_of_app. by left.
Qed.

Lemma foldM_line_step_dropped (tail : list Particle) (output : list float) :
  Forall (fun particle =>
            keeps_weight particle && keeps_det' particle = false) tail ->
  foldM step' tail output = ret output.
Proof.
  intros Htail. apply foldM_id. intros particle Hin.
  rewrite Forall_forall in Htail. unfold line_step, row_step.
  by rewrite (Htail particle Hin).
Qed.

End RowsThenDropped.

(** ** Where the rows dropped by the weight filter do no harm *)



(** X10: when no row of the table passes both filters (in particular on
    the empty table), the validated call returns the profile of [pixcount]
    zeros. *)
Theorem cross_section_without_survivors kernel x1 y1 x2 y2 pixcount
    (line : Line) (data : list Particle) :
  np_isclose y2 y1 && np_isclose x2 x1 = false ->
  0 < pixcount -> ndims kernel = 2 ->
  line_of x1 y1 x2 y2 pixcount = ret line ->
  Forall (fun particle =>
            keeps_weight particle
            && keeps_det kernel (l_gradient line) (l_yint line) (l_aa line)
                 (l_yint2 line) particle = false) data ->
  interpolate2DCross kernel x1 y1 x2 y2 pixcount data
  = ret (replicate (Z.to_nat pixcount) zero).
Proof.
  intros Hclose Hn Hd Hline Hdata.
  by rewrite <- (app_nil_l data),
    (interpolate2DCross_rows_then_dropped kernel x1 y1 x2 y2 pixcount
       line Hclose Hn Hd Hline [] data).
Qed.

Lemma cross_section_without_survivors_witness :
  interpolate2DCross Samples.tophat zero zero four four 8
    [Samples.far; Samples.massless; Samples.far_massless]
  = ret (replicate (Z.to_nat 8) zero).
Proof.
  eapply (cross_section_without_survivors Samples.tophat zero zero four four
            8).
  - reflexivity.
  - lia.
  - reflexivity.
  - vm_compute. reflexivity.
  - by repeat constructor.
Defined.



(** ** A row dropped by the weight filter before a contributing row *)

Lemma nonzero_app (s1 s2 : Series bool) :
  nonzero (s1 ++ s2)
  = nonzero s1
    ++ omap (fun kb : nat * (Z * bool) =>
               if kb.2.2 then Some (Z.of_nat kb.1) else None)
            (zip (seq (length s1) (length s2)) s2).
Proof.
  unfold nonzero.
  rewrite length_app, seq_app, zip_with_app by (by rewrite length_seq).
  by rewrite omap_app.
Qed.

Lemma labelled_from_below (k : nat) (data : list Particle)
    (lp : Z * Particle) :
  lp ∈ labelled_from k data -> lp.1 < Z.of_nat (k + length data).
Proof.
  revert k. induction data as [|p data IH]; intros k Hin; simpl in Hin.
  - by apply elem_of_nil in Hin.
  - apply elem_of_cons in Hin as [->|Hin]; simpl; [lia|].
    apply IH in Hin. lia.
Qed.

Section DroppedBeforeSurvivor.

Variable kernel : BaseKernel.
Variables x1 y1 x2 y2 : float.
Variable pixcount : Z.
Variable line : Line.

#[local] Abbreviation keeps_det'' :=
  (keeps_det kernel (l_gradient line) (l_yint line) (l_aa line)
     (l_yint2 line)).

Hypothesis Hclose : np_isclose y2 y1 && np_isclose x2 x1 = false.
Hypothesis Hcount : 0 < pixcount.
Hypothesis Hdims : ndims kernel = 2.
Hypothesis Hline : line_of x1 y1 x2 y2 pixcount = ret line.

Lemma interpolate2DCross_dropped_before_survivor
    (good rest : list Particle) (dropped : Particle) :
  Forall (fun particle => keeps_weight particle = true) good ->
  keeps_weight dropped = false ->
  Exists (fun particle =>
            keeps_weight particle = true /\ keeps_det'' particle = true)
         rest ->
  exists i,
    interpolate2DCross kernel x1 y1 x2 y2 pixcount (good ++ dropped :: rest)
    = bind (foldM (line_step kernel x1 y1 x2 pixcount line) good
              (replicate (Z.to_nat pixcount) zero))
           (fun _ => raise (KeyError i)).
Proof.
  intros Hgood Hdropped Hex.
  set (data := good ++ dropped :: rest).
  set (n := length good).
  set (L := labelled_from 0 good).
  set (R := filter (fun lp : Z * Particle => keeps_weight lp.2 = true)
              (labelled_from (S n) rest)).
  assert (weight_kept data = L ++ R) as Hkept.
  { unfold weight_kept, data. rewrite labelled_from_app, filter_app.
    rewrite (filter_all _ (labelled_from 0 good))
      by (by apply (Forall_labelled_from
                      (fun particle => keeps_weight particle = true))).
    simpl. rewrite filter_cons. simpl.
    rewrite decide_False by (by rewrite Hdropped).
    subst L R n. repeat f_equal; lia. }
  assert (NoDup (surviving kernel (l_gradient line) (l_yint line)
                   (l_aa line) (l_yint2 line) (weight_kept data)).*1)
    as Hnodup.
  { apply NoDup_fst_filter, NoDup_fst_filter, NoDup_labelled_from. }
  assert (labels_above n R) as Habove.
  { apply labels_above_filter, labels_above_labelled_from. }
  destruct (first_position_is_no_label keeps_det'' n R Habove)
    as (i & more & Hnz & Hnotin).
  { subst R. clear -Hex. generalize (S n).
    induction Hex as [particle rest [Hw Hk]|particle rest Hex IH]; intros k;
      simpl; rewrite filter_cons; simpl.
    - rewrite decide_True by done. by apply Exists_cons_hd.
    - destruct (decide _); [apply Exists_cons_tl|]; apply IH. }
  assert (Z.of_nat n <= i) as Hi.
  { assert (i ∈ i :: more) as Hin by apply list_elem_of_here.
    rewrite <- Hnz in Hin.
    apply list_elem_of_omap in Hin as ([k lb] & Hin & Hk).
    apply elem_of_zip_l, elem_of_seq in Hin. simpl in Hk.
    destruct lb.2; [|done]. injection Hk as <-. lia. }
  exists i.
  rewrite (interpolate2DCross_series kernel x1 y1 x2 y2 pixcount line)
    by done.
  revert Hnodup. rewrite Hkept. intros Hnodup.
  unfold ser at 3. rewrite fmap_app.
  fold (ser keeps_det'' L). fold (ser keeps_det'' R).
  rewrite nonzero_app, !length_ser.
  replace (length L) with n by (subst L n; by rewrite length_labelled_from).
  rewrite Hnz. subst L. rewrite nonzero_ser, foldM_app, foldM_fmap.
  match goal with
  | |- context [foldM ?f (filter ?P (labelled_from 0 good)) ?s] =>
      rewrite (foldM_ext_in f
                 (fun out (lp : Z * Particle) =>
                    row_contrib kernel x1 y1 x2 pixcount (l_gradient line)
                      (l_yint line) (l_pixwidth line) (l_xpixwidth line)
                      (l_aa line) (l_yint2 line) out lp.2)
                 (filter P (labelled_from 0 good)) s)
  end.
  2:{ intros out [j particle] Hin.
      apply (cross_step_row kernel x1 y1 x2 pixcount (l_gradient line)
               (l_yint line) (l_pixwidth line) (l_xpixwidth line)
               (l_aa line) (l_yint2 line)).
      - exact Hnodup.
      - unfold surviving. rewrite filter_app. apply elem_of_app. by left.
      - apply list_elem_of_filter in Hin as [_ Hin]. unfold data.
        rewrite labelled_from_app. apply elem_of_app. by left. }
  rewrite (foldM_survivors kernel x1 y1 x2 pixcount (l_gradient line)
             (l_yint line) (l_pixwidth line) (l_xpixwidth line)
             (l_aa line) (l_yint2 line) 0 good _ Hgood).
  fold (line_step kernel x1 y1 x2 pixcount line).
  destruct (foldM (line_step kernel x1 y1 x2 pixcount line) good _)
    as [e|out]; [done|].
  cbn [bind]. cbn [foldM]. unfold cross_step at 1.
  rewrite sloc_missing; [done|].
  rewrite fst_ser. unfold surviving. rewrite filter_app, fmap_app.
  intros [Hin|Hin]%elem_of_app; [|done].
  apply list_elem_of_fmap in Hin as (lp & -> & Hin).
  apply list_elem_of_filter in Hin as [_ Hin].
  apply labelled_from_below in Hin. subst n. lia.
Qed.

End DroppedBeforeSurvivor.



(** ** Rows the weight filter drops *)

Lemma fmul_nan_l (x : float) : fmul S754_nan x = S754_nan.
Proof. done. Qed.

Lemma fdiv_nan_l (x : float) : fdiv S754_nan x = S754_nan.
Proof. done. Qed.

Lemma keeps_weight_degenerate (particle : Particle) :
  is_zero (p_target particle) = true \/
  is_finite (p_target particle) = false \/
  is_nan (p_m particle) = true \/ is_nan (p_rho particle) = true \/
  is_nan (p_h particle) = true ->
  keeps_weight particle = false.
Proof.
  unfold keeps_weight, fsquare.
  intros [Ht|[Ht|[Hm%is_nan_eq|[Hr%is_nan_eq|Hh%is_nan_eq]]]].
  - destruct (p_target particle) as [st| | |]; try done.
    destruct (p_m particle) as [sm|sm| |sm mm em];
      destruct (fmul (p_rho particle) _) as [sd|sd| |sd md ed]; done.
  - destruct (p_target particle) as [|st| |]; try done.
    destruct (p_m particle) as [sm|sm| |sm mm em];
      destruct (fmul (p_rho particle) _) as [sd|sd| |sd md ed]; done.
  - by rewrite Hm, fmul_nan_r.
  - rewrite Hr. change (fmul S754_nan ?x) with S754_nan.
    by rewrite fdiv_nan_r.
  - rewrite Hh. change (fmul S754_nan S754_nan) with S754_nan.
    by rewrite fmul_nan_r, fdiv_nan_r.
Qed.

(** X13: the weight filter [term / target > 0] is false for every row
    whose target value is zero, infinite or NaN, and for every row whose
    mass, density or smoothing length is NaN: the quotient is NaN.  Such a
    row is dropped whatever its weight is. *)
Theorem degenerate_row_fails_weight_filter (data : list Particle) (k : nat)
    (particle : Particle) :
  data !! k = Some particle ->
  is_zero (p_target particle) = true \/
  is_finite (p_target particle) = false \/
  is_nan (p_m particle) = true \/ is_nan (p_rho particle) = true \/
  is_nan (p_h particle) = true ->
  filter_weight data !! k = Some (Z.of_nat k, false).
Proof.
  intros Hk Hdeg. rewrite filter_weight_ser. unfold ser, Series.
  rewrite list_lookup_fmap, (lookup_labelled_from 0 k data particle Hk).
  simpl. by rewrite keeps_weight_degenerate.
Qed.

Lemma degenerate_row_fails_weight_filter_witness :
  filter_weight [Samples.centre; Exceptional.zero_target; Exceptional.nan_h]
    !! 1%nat = Some (1, false) /\
  filter_weight [Samples.centre; Exceptional.zero_target; Exceptional.nan_h]
    !! 2%nat = Some (2, false).
Proof.
  split.
  - apply (degenerate_row_fails_weight_filter _ 1 Exceptional.zero_target);
      [reflexivity | by left].
  - apply (degenerate_row_fails_weight_filter _ 2 Exceptional.nan_h);
      [reflexivity | by do 4 right].
Defined.

(** ** Lines too long to square *)

Lemma fmul_finite_not_nan (x y : float) :
  is_finite x = true -> is_finite y = true -> is_nan (fmul x y) = false.
Proof.
  intros Hx Hy.
  destruct x as [sx| | |sx mx ex]; try done;
    destruct y as [sy| | |sy my ey]; try done.
  pose proof (fmul_sign (S754_finite sx mx ex) (S754_finite sy my ey) sx sy
                eq_refl eq_refl eq_refl eq_refl) as Hsign.
  by destruct (fmul _ _).
Qed.

Lemma py_pow2_overflow (x : float) :
  is_finite x = true -> is_finite (fsquare x) = false ->
  py_pow2 x = raise (OverflowError "(34, 'Numerical result out of range')").
Proof.
  intros Hx Hsq. pose proof (fmul_finite_not_nan x x Hx Hx) as Hnan.
  unfold py_pow2, fsquare in *.
  destruct x as [sx| | |sx mx ex]; try done.
  by destruct (fmul _ _).
Qed.



(** ** Vertical lines

    For [x2 = x1] the slope is left at 0, both intersection abscissas are
    clipped to [x1], and the pixel range of every particle is empty. *)

Lemma SFcompare_refl (x : float) :
  is_nan x = false -> SFcompare x x = Some Eq.
Proof.
  destruct x as [s|[]| |[] m e]; try done; intros _; simpl;
    by rewrite Z.compare_refl, Pos.compare_cont_refl.
Qed.

Lemma fleb_refl (x : float) : is_nan x = false -> fleb x x = true.
Proof. intros Hx. unfold fleb, SFleb. by rewrite SFcompare_refl. Qed.

Lemma feqb_refl (x : float) : is_nan x = false -> feqb x x = true.
Proof. intros Hx. unfold feqb, SFeqb. by rewrite SFcompare_refl. Qed.

Lemma fleb_antisym (x v : float) :
  fleb x v = true -> fleb v x = true ->
  v = x \/ (is_zero x = true /\ is_zero v = true).
Proof.
  unfold fleb, SFleb, SFcompare.
  destruct x as [sx|[]| |[] mx ex], v as [sv|[]| |[] mv ev]; try done;
    auto; intros H1 H2; left;
    destruct (Z.compare_spec ex ev) as [->|Hlt|Hgt];
    try (rewrite Z.compare_refl in H2);
    try (rewrite (proj2 (Z.compare_gt_iff ev ex)) in H2 by lia);
    try (rewrite (proj2 (Z.compare_lt_iff ev ex)) in H2 by lia);
    try done;
    rewrite !Pos.compare_cont_spec in H1, H2; simpl in H1, H2;
    destruct (Pos.compare_spec mx mv) as [->|Hm|Hm]; try done;
    try (rewrite (proj2 (Pos.compare_gt_iff mv mx)) in H2 by lia);
    try (rewrite (proj2 (Pos.compare_lt_iff mv mx)) in H2 by lia);
    done.
Qed.

(** Clipping to a single point gives the point, a zero when the point is
    zero, or NaN. *)
Lemma pd_clip_point (x v : float) :
  is_nan x = false ->
  pd_clip x x v = S754_nan \/ pd_clip x x v = x \/
  (is_zero x = true /\ is_zero (pd_clip x x v) = true).
Proof.
  intros Hx. unfold pd_clip. rewrite Hx.
  assert ((if fltb x x then x else x) = x) as -> by (by destruct (fltb x x)).
  assert ((if fgtb x x then x else x) = x) as -> by (by destruct (fgtb x x)).
  destruct (is_nan v) eqn:Hv.
  - apply is_nan_eq in Hv as ->. by left.
  - cbn [orb]. unfold fgeb. fold (fleb x v).
    destruct (fleb x v) eqn:Hge.
    + rewrite Hv. cbn [orb]. destruct (fleb v x) eqn:Hle; [|by right; left].
      destruct (fleb_antisym x v Hge Hle) as [->|[Hzx Hzv]]; auto.
    + rewrite Hx. cbn [orb]. rewrite fleb_refl by done. by right; left.
Qed.

Section Vertical.

Variable kernel : BaseKernel.
Variables x1 y1 : float.
Variable pixcount : Z.
Variables yint pixwidth aa yint2 : float.

#[local] Abbreviation dist' := (dist_of x1 y1 zero yint).
#[local] Abbreviation pix' := (pix_of pixcount pixwidth).
#[local] Abbreviation ipixmin' :=
  (ipixmin_of kernel x1 y1 x1 pixcount zero yint pixwidth aa yint2).
#[local] Abbreviation ipixmax' :=
  (ipixmax_of kernel x1 y1 x1 pixcount zero yint pixwidth aa yint2).

Lemma dist_of_zeros (s s' : bool) :
  is_zero x1 = true -> dist' (S754_zero s) = dist' (S754_zero s').
Proof.
  intros Hx. unfold dist_of, fsquare.
  destruct x1 as [s1| | |]; try done.
  destruct yint as [sy|sy| |sy my ey], y1 as [sz|sz| |sz mz ez];
    destruct s, s', s1; try reflexivity; destruct sy; try reflexivity;
    destruct sz; reflexivity.
Qed.

Lemma py_int_pix_nan (z : Z) : py_int (pix' (dist' S754_nan)) <> ret z.
Proof.
  unfold pix_of, dist_of, pd_clip.
  change (np_rint (fdiv (fsqrt _) pixwidth)) with S754_nan.
  destruct (is_nan (of_Z pixcount)); simpl; [done|].
  by repeat case_match.
Qed.

Lemma dist_of_point (a b : float) :
  a = x1 \/ (is_zero x1 = true /\ is_zero a = true) ->
  b = x1 \/ (is_zero x1 = true /\ is_zero b = true) ->
  dist' a = dist' b.
Proof.
  assert (forall u v : float,
            is_zero x1 = true -> is_zero u = true -> is_zero v = true ->
            dist' u = dist' v) as Hzeros.
  { intros [su| | |] [sv| | |] Hz; try done. intros _ _.
    by apply dist_of_zeros. }
  intros [->|[Hz Ha]] [->|[Hz' Hb]]; [done| | |]; by apply Hzeros.
Qed.

Lemma vertical_range_empty (particle : Particle) (lo hi : Z) :
  is_nan x1 = false ->
  py_int (ipixmin' particle) = ret lo -> py_int (ipixmax' particle) = ret hi ->
  lo = hi.
Proof.
  intros Hx. unfold ipixmin_of, ipixmax_of, xstart_of, xend_of.
  destruct (pd_clip_point x1
              (fdiv (fsub (fopp (bb_of zero yint particle))
                          (fsqrt (det_of kernel zero yint aa yint2 particle)))
                    (fmul two aa)) Hx) as [->|Hstart];
    [by intros ?%py_int_pix_nan|].
  destruct (pd_clip_point x1
              (fdiv (fadd (fopp (bb_of zero yint particle))
                          (fsqrt (det_of kernel zero yint aa yint2 particle)))
                    (fmul two aa)) Hx) as [->|Hend];
    [by intros _ ?%py_int_pix_nan|].
  rewrite (dist_of_point _ _ Hstart Hend).
  intros H1 H2. rewrite H1 in H2. by injection H2.
Qed.

End Vertical.

Lemma sloc_ser_same {A : Type} (f : Particle -> A)
    (rows : list (Z * Particle)) (i : Z) (a : A) :
  sloc (ser f rows) i = ret a ->
  exists particle,
    a = f particle /\
    forall (B : Type) (g : Particle -> B),
      sloc (ser g rows) i = ret (g particle).
Proof.
  induction rows as [|[l p] rows IH]; [done|]. simpl.
  destruct (l =? i).
  - intros [= <-]. by exists p.
  - intros Ha. destruct (IH Ha) as (q & Hq & Hg). exists q. split; [done|].
    intros B g. apply Hg.
Qed.

Lemma slice_iadd_empty (output : list float) (a : Z) :
  slice_iadd output a a [] = ret output.
Proof.
  unfold slice_iadd. rewrite Z.sub_diag. simpl.
  by rewrite Nat.add_0_r, take_drop.
Qed.

Lemma cross_step_vertical kernel x1 y1 pixcount yint pixwidth xpixwidth aa
    yint2 (data : list Particle) (term : Series float)
    (rows : list (Z * Particle)) (output output' : list float) (i : Z) :
  is_nan x1 = false ->
  cross_step kernel x1 data zero yint xpixwidth term
    (ser (ipixmin_of kernel x1 y1 x1 pixcount zero yint pixwidth aa yint2)
         rows)
    (ser (ipixmax_of kernel x1 y1 x1 pixcount zero yint pixwidth aa yint2)
         rows)
    output i = ret output' ->
  output' = output.
Proof.
  intros Hx. unfold cross_step.
  destruct (sloc (ser (ipixmin_of _ _ _ _ _ _ _ _ _ _) rows) i)
    as [e|a] eqn:Ha; [done|].
  destruct (sloc_ser_same _ rows i a Ha) as (particle & -> & Hsame).
  cbn [bind].
  destruct (py_int (ipixmin_of _ _ _ _ _ _ _ _ _ _ particle))
    as [e|lo] eqn:Hlo; [done|]. cbn [bind].
  rewrite Hsame. cbn [bind ret].
  destruct (py_int (ipixmax_of _ _ _ _ _ _ _ _ _ _ particle))
    as [e|hi] eqn:Hhi; [done|]. cbn [bind]. cbv zeta.
  assert (lo = hi) as <-
    by (by apply (vertical_range_empty kernel x1 y1 pixcount yint
                     pixwidth aa yint2 particle)).
  rewrite py_range_empty by lia. simpl fmap. simpl zip_with.
  destruct (sloc (column p_y data) i) as [e|yi]; [done|]. cbn [bind].
  destruct (sloc (column p_x data) i) as [e|xi]; [done|]. cbn [bind].
  destruct (sloc (column p_h data) i) as [e|hi]; [done|]. cbn [bind].
  destruct (sloc term i) as [e|ti]; [done|]. cbn [bind].
  rewrite slice_iadd_empty. by intros [= <-].
Qed.

(** X15: a cross-section along a vertical line ([x2 = x1]) accumulates
    nothing: every profile the call returns is all zeros, whatever the
    particles are. *)
Theorem vertical_cross_section_is_empty kernel x1 y1 y2 pixcount data output :
  is_nan x1 = false ->
  interpolate2DCross kernel x1 y1 x1 y2 pixcount data = ret output ->
  output = replicate (Z.to_nat pixcount) zero.
Proof.
  intros Hx Hret.
  destruct (interpolate2DCross_ret_line _ _ _ _ _ _ _ _ Hret)
    as (Hclose & Hn & Hd & line & Hline).
  rewrite (interpolate2DCross_series kernel x1 y1 x1 y2 pixcount line data
             Hclose Hn Hd Hline) in Hret.
  assert (l_gradient line = zero) as Hg.
  { revert Hline. unfold line_of.
    rewrite (np_isclose_eq x1 x1 (feqb_refl x1 Hx)). cbn [negb bind ret].
    repeat (rewrite bind_ret; intros (? & _ & H); revert H).
    by intros [= <-]. }
  rewrite Hg in Hret.
  apply (foldM_invariant
           (fun out => out = replicate (Z.to_nat pixcount) zero))
    in Hret; [done| |done].
  intros out i out' -> Hstep.
  by apply cross_step_vertical in Hstep.
Qed.

Lemma vertical_cross_section_is_empty_witness :
  keeps_weight Exceptional.top = true /\
  (exists line,
     line_of two zero two four 8 = ret line /\
     keeps_det Samples.tophat (l_gradient line) (l_yint line) (l_aa line)
       (l_yint2 line) Exceptional.top = true) /\
  exists output,
    interpolate2DCross Samples.tophat two zero two four 8 [Exceptional.top]
    = ret output /\
    output = replicate (Z.to_nat 8) zero.
Proof.
  split; [reflexivity|]. split.
  { eexists. split; [vm_compute; reflexivity|]. vm_compute. reflexivity. }
  eexists. split; [vm_compute; reflexivity|].
  apply (vertical_cross_section_is_empty Samples.tophat two zero four 8
           [Exceptional.top]); [reflexivity|].
  vm_compute. reflexivity.
Defined.

(** ** Rounding of numbers above the subnormal range never reaches zero *)

Lemma digits2_pos_lower (p : positive) :
  2 ^ (Z.pos (digits2_pos p) - 1) <= Z.pos p.
Proof.
  induction p as [p IH|p IH|]; simpl digits2_pos; [| |done];
    rewrite Pos2Z.inj_succ;
    replace (Z.succ (Z.pos (digits2_pos p)) - 1)
      with (Z.succ (Z.pos (digits2_pos p) - 1)) by lia;
    rewrite Z.pow_succ_r by lia; lia.
Qed.

Lemma shr_1_half (mrs : shr_record) :
  0 <= shr_m mrs -> shr_m (shr_1 mrs) = shr_m mrs / 2.
Proof.
  destruct mrs as [[|[p|p|]|p] r s]; intros Hm; cbn [shr_1 shr_m];
    try done.
  - change (Z.pos p~1) with (2 * Z.pos p + 1).
    apply (Z.div_unique _ _ _ 1); lia.
  - change (Z.pos p~0) with (2 * Z.pos p).
    apply (Z.div_unique _ _ _ 0); lia.
Qed.

Lemma iter_shr_1_div (p : positive) (mrs : shr_record) :
  0 <= shr_m mrs ->
  shr_m (iter_pos shr_1 p mrs) = shr_m mrs / 2 ^ Z.pos p.
Proof.
  revert mrs. induction p as [p IH|p IH|]; intros mrs Hm; simpl iter_pos.
  - rewrite IH by (by apply iter_shr_1_nonneg, shr_1_nonneg).
    rewrite IH by (by apply shr_1_nonneg). rewrite shr_1_half by done.
    assert (0 < 2 ^ Z.pos p) as Hpow by (apply Z.pow_pos_nonneg; lia).
    rewrite !Z.div_div by lia. f_equal.
    replace (Z.pos p~1) with (1 + Z.pos p + Z.pos p) by lia.
    rewrite !Z.pow_add_r by lia. change (2 ^ 1) with 2. ring.
  - rewrite IH by (by apply iter_shr_1_nonneg).
    assert (0 < 2 ^ Z.pos p) as Hpow by (apply Z.pow_pos_nonneg; lia).
    rewrite IH by done. rewrite Z.div_div by lia. f_equal.
    replace (Z.pos p~0) with (Z.pos p + Z.pos p) by lia.
    rewrite Z.pow_add_r by lia. ring.
  - rewrite shr_1_half by done. done.
Qed.

Lemma shr_fexp_pos (m e : Z) (l : location) :
  0 < m -> SpecFloat.emin prec emax <= e ->
  0 < shr_m (shr_fexp prec emax m e l).1 /\
  SpecFloat.emin prec emax <= (shr_fexp prec emax m e l).2.
Proof.
  intros Hm He. unfold shr_fexp, shr.
  assert (shr_m (shr_record_of_loc m l) = m) as Hrec
    by (by destruct l as [|[]]).
  destruct m as [|p|p]; try lia. simpl Zdigits2.
  pose proof (digits2_pos_lower p) as Hdig.
  set (d := Z.pos (digits2_pos p)) in *.
  unfold fexp. change (SpecFloat.emin prec emax) with (-1074) in *.
  change prec with 53.
  destruct (Z.max (d + e - 53) (-1074) - e) as [|q|q] eqn:Hn; simpl;
    [rewrite Hrec; lia| |rewrite Hrec; lia].
  rewrite iter_shr_1_div by (rewrite Hrec; lia). rewrite Hrec.
  assert (Z.pos q = d - 53) as Hq by lia.
  split; [|lia]. apply Z.div_str_pos. split; [apply Z.pow_pos_nonneg; lia|].
  etrans; [|exact Hdig]. rewrite Hq. apply Z.pow_le_mono_r; lia.
Qed.

Lemma round_nearest_even_pos (m : Z) (l : location) :
  0 < m -> 0 < round_nearest_even m l.
Proof.
  intros Hm. destruct l as [|[]]; simpl; try lia.
  destruct (Z.even m); lia.
Qed.

Lemma binary_round_aux_nonzero (s : bool) (m e : Z) (l : location) :
  0 < m -> SpecFloat.emin prec emax <= e ->
  is_zero (binary_round_aux prec emax s m e l) = false.
Proof.
  intros Hm He. unfold binary_round_aux.
  destruct (shr_fexp_pos m e l Hm He) as [H1 He1].
  destruct (shr_fexp prec emax m e l) as [mrs' e']. simpl in H1, He1.
  destruct (shr_fexp_pos _ e' loc_Exact
              (round_nearest_even_pos _ (loc_of_shr_record mrs') H1) He1)
    as [H2 _].
  destruct (shr_fexp prec emax _ e' loc_Exact) as [mrs'' e'']. simpl in H2.
  destruct (shr_m mrs''); [lia| |done].
  by destruct (_ <=? _).
Qed.

Lemma of_Z_nonzero (z : Z) : 0 < z -> is_zero (of_Z z) = false.
Proof.
  destruct z as [|p|p]; try lia. intros _.
  unfold of_Z, binary_normalize, binary_round.
  destruct (shl_align p 0 _) as [mz ez] eqn:Hshl.
  apply binary_round_aux_nonzero; [lia|].
  revert Hshl. unfold shl_align, fexp.
  change (SpecFloat.emin prec emax) with (-1074).
  destruct (_ - 0) eqn:Hd; intros [= <- <-]; lia.
Qed.

(** ** The guard of the slope *)

Lemma fadd_sign_nonneg (x y : float) :
  is_finite x = true -> is_zero x = false ->
  fsign x = Some false -> fsign y = Some false ->
  fsign (fadd x y) = Some false.
Proof.
  destruct x as [| | |[] mx ex]; try done.
  destruct y as [[]|[]| |[] my ey]; try done. intros _ _ _ _.
  unfold fadd, SFadd. cbn [cond_Zopp].
  set (a := (shl_align mx ex (Z.min ex ey)).1).
  set (b := (shl_align my ey (Z.min ex ey)).1).
  change (Z.pos a + Z.pos b) with (Z.pos (a + b)).
  unfold binary_normalize, binary_round.
  destruct (shl_align (a + b) _ _) as [mz ez].
  apply binary_round_aux_sign. lia.
Qed.

Lemma fleb_zero_nonneg (z : float) :
  fsign z = Some false -> fleb zero z = true.
Proof. by destruct z as [[]|[]| |[] m e]. Qed.

Lemma isclose_of_zero_difference (a b : float) :
  is_zero (fsub a b) = true -> np_isclose a b = true.
Proof.
  intros Hz. unfold np_isclose.
  assert (is_finite b = true) as Hb.
  { destruct a as [[]|[]| |], b as [[]|[]| |]; done. }
  assert (fsign (fabs b) = Some false) as Hsign.
  { destruct b; done. }
  assert (fsign (fmul rtol (fabs b)) = Some false) as Hmul.
  { by apply (fmul_sign rtol (fabs b) false false). }
  assert (fsign (fadd atol (fmul rtol (fabs b))) = Some false) as Hadd.
  { by apply fadd_sign_nonneg. }
  destruct (fsub a b) as [s| | |]; try done.
  change (fabs (S754_zero s)) with zero.
  by rewrite fleb_zero_nonneg, Hb.
Qed.

(** ** The errors of the cross-section *)

Lemma py_int_cross (x : float) : may_raise cross_error (py_int x).
Proof. destruct x as [s|s| |s m ex]; intros err [= <-]; constructor. Qed.

Lemma py_pow2_cross (x : float) : may_raise cross_error (py_pow2 x).
Proof.
  unfold py_pow2. destruct x as [s|s| |s m ex]; try (by intros err [=]).
  destruct (fmul (S754_finite s m ex) _); intros err [= <-]. constructor.
Qed.

Lemma sloc_cross {A : Type} (s : Series A) (i : Z) :
  may_raise cross_error (sloc s i).
Proof.
  induction s as [|[l v] s IH]; simpl.
  - intros e [= <-]. constructor.
  - destruct (l =? i); [apply may_raise_ret|exact IH].
Qed.

Lemma slice_iadd_cross (output : list float) (a b : Z) (vals : list float) :
  may_raise cross_error (slice_iadd output a b vals).
Proof.
  unfold slice_iadd. destruct (match vals with [v] => _ | _ => _ end).
  - apply may_raise_ret.
  - intros e [= <-]. constructor.
Qed.

Lemma cross_step_cross kernel x1 data gradient yint xpixwidth
    term ipixmin ipixmax output i :
  may_raise cross_error
    (cross_step kernel x1 data gradient yint xpixwidth term ipixmin ipixmax
       output i).
Proof.
  unfold cross_step.
  repeat first
    [ apply slice_iadd_cross
    | apply may_raise_bind;
      [first [apply sloc_cross | apply py_int_cross]|intros ? _] ].
Qed.

